(** * Darwin: the migration engine of darwin.go, embedded and verified

    The development follows the Go source function by function.  Library
    code the engine calls (strings, bufio, sort, strconv, crypto/md5, time)
    is modelled from its documented behaviour or taken as a parameter; the
    engine itself ([ParseMigrations], [Validate], [Info], [getStatus],
    [Migrate], [planMigration] and the helpers of [Validate]) is translated
    statement by statement. *)

From Stdlib Require Import List String Ascii Bool ZArith NArith PArith Lia Floats Uint63.
From Stdlib Require Import Permutation Sorted.
Import ListNotations.
Local Open Scope list_scope.

(* ================================================================= *)
(** ** float64 *)

(** Go's [float64] is IEEE 754 binary64, which is what Rocq's primitive
    floats are.  The engine only compares versions ([<], [>], [==]) and uses
    them as map keys; no arithmetic is done on them. *)
Module F64.

Definition float64 : Set := PrimFloat.float.

(** [a < b], [a > b] and [a == b] of Go: all three are false as soon as one
    side is NaN, and [0 == -0] holds. *)
Definition lt (a b : float64) : bool := PrimFloat.ltb a b.
Definition gt (a b : float64) : bool := PrimFloat.ltb b a.
Definition eq (a b : float64) : bool := PrimFloat.eqb a b.

Definition isNaN (a : float64) : bool := PrimFloat.is_nan a.

Definition zero : float64 := 0%float.

End F64.

Abbreviation float64 := F64.float64.

(* ================================================================= *)
(** ** Strings *)

(** A Go string is a sequence of bytes; so is a [string] of Rocq. *)
Module Strings.

(** [strings.ToLower] on the ASCII letters.  Bytes from 0x80 on are kept as
    they are: Go decodes them as UTF-8 and maps the runes through the Unicode
    tables, which this embedding does not carry. *)
Definition lowerByte (c : ascii) : ascii :=
  let n := N_of_ascii c in
  if ((65 <=? n) && (n <=? 90))%N then ascii_of_N (n + 32) else c.

Fixpoint ToLower (s : string) : string :=
  match s with
  | EmptyString => EmptyString
  | String c r => String (lowerByte c) (ToLower r)
  end.

(** [strings.Replace(s, " ", "", 1)]: the first space of [s] is removed. *)
Fixpoint ReplaceFirstSpace (s : string) : string :=
  match s with
  | EmptyString => EmptyString
  | String c r => if Ascii.eqb c " " then r else String c (ReplaceFirstSpace r)
  end.

(** [strings.HasPrefix(s, prefix)]. *)
Fixpoint HasPrefix (s prefix : string) {struct prefix} : bool :=
  match prefix with
  | EmptyString => true
  | String a prefix' =>
      match s with
      | EmptyString => false
      | String b s' => Ascii.eqb a b && HasPrefix s' prefix'
      end
  end.

(** The ASCII white space of [strings.TrimSpace]: tab, line feed, vertical
    tab, form feed, carriage return and space.  The white space Unicode has
    beyond ASCII (U+0085, U+00A0 and the like, several bytes each in UTF-8)
    is not trimmed here. *)
Definition isSpace (c : ascii) : bool :=
  let n := N_of_ascii c in
  (((9 <=? n) && (n <=? 13)) || (n =? 32))%N.

Fixpoint trimLeft (s : string) : string :=
  match s with
  | EmptyString => EmptyString
  | String c r => if isSpace c then trimLeft r else s
  end.

Definition reverse (s : string) : string :=
  string_of_list_ascii (rev (list_ascii_of_string s)).

Definition TrimSpace (s : string) : string :=
  reverse (trimLeft (reverse (trimLeft s))).

(** The slice expression [v[n:]]: defined when [n <= len(v)]; Go panics
    otherwise, which is [None] here. *)
Fixpoint sliceFrom (n : nat) (v : string) : option string :=
  match n, v with
  | O, _ => Some v
  | S n', String _ r => sliceFrom n' r
  | S _, EmptyString => None
  end.

(** [bufio.MaxScanTokenSize]: a [bufio.Scanner] holds at most this many bytes
    of a line that has not ended yet. *)
Definition MaxScanTokenSize : N := 65536.

Definition dropCR (revLine : list ascii) : list ascii :=
  match revLine with
  | "013"%char :: r => r
  | _ => revLine
  end.

Definition token (revLine : list ascii) : string :=
  string_of_list_ascii (rev (dropCR revLine)).

(** The lines a [bufio.Scanner] with [bufio.ScanLines] yields over a
    [strings.Reader]: input is cut at each line feed, one trailing carriage
    return is dropped from every line, and a last line without line feed is
    yielded when it is not empty.  [revLine] holds the bytes of the current
    line, latest first, and [n] is their number.  A line of
    [MaxScanTokenSize] bytes or more makes [Scan] answer false
    ([bufio.ErrTooLong]): the lines before it were yielded, nothing after
    them is. *)
Fixpoint scan (s : string) (revLine : list ascii) (n : N) : list string :=
  match s with
  | EmptyString => if (n =? 0)%N then [] else [token revLine]
  | String c r =>
      if Ascii.eqb c "010" then token revLine :: scan r [] 0%N
      else if (n + 1 <? MaxScanTokenSize)%N then scan r (c :: revLine) (n + 1)%N
      else []
  end.

Definition ScanLines (s : string) : list string := scan s [] 0%N.

End Strings.

(* ================================================================= *)
(** ** crypto/md5 *)

(** MD5 (RFC 1321) on 32-bit words held in [Z], with the wrap-around of
    every addition and rotation written out. *)
Module MD5.
Local Open Scope Z_scope.

Definition mask32 : Z := 0xffffffff.
Definition add32 (a b : Z) : Z := Z.land (a + b) mask32.
Definition not32 (a : Z) : Z := Z.lxor a mask32.
Definition rotl32 (x c : Z) : Z :=
  Z.land (Z.lor (Z.shiftl x c) (Z.shiftr x (32 - c))) mask32.

Definition shifts : list Z :=
  [7; 12; 17; 22; 7; 12; 17; 22; 7; 12; 17; 22; 7; 12; 17; 22;
   5; 9; 14; 20; 5; 9; 14; 20; 5; 9; 14; 20; 5; 9; 14; 20;
   4; 11; 16; 23; 4; 11; 16; 23; 4; 11; 16; 23; 4; 11; 16; 23;
   6; 10; 15; 21; 6; 10; 15; 21; 6; 10; 15; 21; 6; 10; 15; 21].

Definition table : list Z :=
  [0xd76aa478; 0xe8c7b756; 0x242070db; 0xc1bdceee;
   0xf57c0faf; 0x4787c62a; 0xa8304613; 0xfd469501;
   0x698098d8; 0x8b44f7af; 0xffff5bb1; 0x895cd7be;
   0x6b901122; 0xfd987193; 0xa679438e; 0x49b40821;
   0xf61e2562; 0xc040b340; 0x265e5a51; 0xe9b6c7aa;
   0xd62f105d; 0x02441453; 0xd8a1e681; 0xe7d3fbc8;
   0x21e1cde6; 0xc33707d6; 0xf4d50d87; 0x455a14ed;
   0xa9e3e905; 0xfcefa3f8; 0x676f02d9; 0x8d2a4c8a;
   0xfffa3942; 0x8771f681; 0x6d9d6122; 0xfde5380c;
   0xa4beea44; 0x4bdecfa9; 0xf6bb4b60; 0xbebfbc70;
   0x289b7ec6; 0xeaa127fa; 0xd4ef3085; 0x04881d05;
   0xd9d4d039; 0xe6db99e5; 0x1fa27cf8; 0xc4ac5665;
   0xf4292244; 0x432aff97; 0xab9423a7; 0xfc93a039;
   0x655b59c3; 0x8f0ccc92; 0xffeff47d; 0x85845dd1;
   0x6fa87e4f; 0xfe2ce6e0; 0xa3014314; 0x4e0811a1;
   0xf7537e82; 0xbd3af235; 0x2ad7d2bb; 0xeb86d391].

(** The [count] low bytes of [x], least significant first. *)
Fixpoint littleEndian (count : nat) (x : Z) : list Z :=
  match count with
  | O => []
  | S k => Z.land x 255 :: littleEndian k (Z.shiftr x 8)
  end.

(** The message with its padding: one 0x80 byte, zero bytes up to 56 modulo
    64, and the length in bits as eight little-endian bytes. *)
Definition padded (msg : list Z) : list Z :=
  let len := Z.of_nat (List.length msg) in
  let zeros := Z.to_nat ((55 - len) mod 64) in
  msg ++ [128] ++ repeat 0 zeros ++ littleEndian 8 (Z.land (8 * len) 0xffffffffffffffff).

(** The bytes as little-endian 32-bit words. *)
Fixpoint words (bytes : list Z) : list Z :=
  match bytes with
  | b0 :: b1 :: b2 :: b3 :: r =>
      (b0 + Z.shiftl b1 8 + Z.shiftl b2 16 + Z.shiftl b3 24) :: words r
  | _ => []
  end.

Definition round (M : list Z) (st : Z * Z * Z * Z) (i : nat) : Z * Z * Z * Z :=
  let '(a, b, c, d) := st in
  let zi := Z.of_nat i in
  let '(f, g) :=
    if zi <? 16 then (Z.lor (Z.land b c) (Z.land (not32 b) d), zi)
    else if zi <? 32 then (Z.lor (Z.land d b) (Z.land (not32 d) c), (5 * zi + 1) mod 16)
    else if zi <? 48 then (Z.lxor b (Z.lxor c d), (3 * zi + 5) mod 16)
    else (Z.lxor c (Z.lor b (not32 d)), (7 * zi) mod 16) in
  let f' := add32 (add32 (add32 f a) (nth i table 0)) (nth (Z.to_nat g) M 0) in
  (d, add32 b (rotl32 f' (nth i shifts 0)), b, c).

Definition block (st : Z * Z * Z * Z) (M : list Z) : Z * Z * Z * Z :=
  let '(a0, b0, c0, d0) := st in
  let '(a, b, c, d) := fold_left (round M) (seq 0 64) st in
  (add32 a0 a, add32 b0 b, add32 c0 c, add32 d0 d).

(** The blocks of sixteen words, one after the other; [fuel] is the number of
    words, which is more than that of the blocks. *)
Fixpoint blocks (fuel : nat) (st : Z * Z * Z * Z) (ws : list Z) : Z * Z * Z * Z :=
  match fuel, ws with
  | S k, _ :: _ => blocks k (block st (firstn 16 ws)) (skipn 16 ws)
  | _, _ => st
  end.

(** [md5.Sum(data)]: the sixteen bytes of the digest. *)
Definition Sum (data : list Z) : list Z :=
  let bytes := padded data in
  let ws := words bytes in
  let '(a, b, c, d) :=
    blocks (List.length ws) (0x67452301, 0xefcdab89, 0x98badcfe, 0x10325476) ws in
  littleEndian 4 a ++ littleEndian 4 b ++ littleEndian 4 c ++ littleEndian 4 d.

Definition hexDigit (x : Z) : ascii :=
  ascii_of_N (Z.to_N (if x <? 10 then 48 + x else 87 + x)).

(** [fmt.Sprintf("%x", sum)]: two lower-case hexadecimal digits per byte. *)
Fixpoint hex (bytes : list Z) : string :=
  match bytes with
  | [] => EmptyString
  | b :: r => String (hexDigit (Z.shiftr b 4)) (String (hexDigit (Z.land b 15)) (hex r))
  end.

Definition bytesOf (s : string) : list Z :=
  map (fun c => Z.of_N (N_of_ascii c)) (list_ascii_of_string s).

Definition hexSum (s : string) : string := hex (Sum (bytesOf s)).

End MD5.

(* ================================================================= *)
(** ** strconv.ParseFloat, on plain decimals *)

(** The engine takes [strconv.ParseFloat] as a parameter.  [plainDecimal] is
    the instance the examples run with: it agrees with
    [strconv.ParseFloat(s, 64)] on an optional sign followed by at most
    fifteen decimal digits with an optional point, where the conversion is
    one exact division, and refuses every other text, also those Go accepts
    (exponents, hexadecimal floats, infinities, NaN). *)
Module Strconv.

Definition digit (c : ascii) : option Z :=
  let n := Z.of_N (N_of_ascii c) in
  if ((48 <=? n) && (n <=? 57))%Z then Some (n - 48)%Z else None.

(** The digits [s] starts with: their value after [acc], their number added
    to [count], and what follows them. *)
Fixpoint digits (s : string) (acc : Z) (count : nat) : Z * nat * string :=
  match s with
  | EmptyString => (acc, count, s)
  | String c r =>
      match digit c with
      | Some d => digits r (10 * acc + d)%Z (S count)
      | None => (acc, count, s)
      end
  end.

Definition ofZ (z : Z) : float64 := PrimFloat.of_uint63 (Uint63.of_Z z).

Definition plainDecimal (s : string) : option float64 :=
  let '(neg, body) :=
    match s with
    | String "-" r => (true, r)
    | String "+" r => (false, r)
    | _ => (false, s)
    end in
  let '(int, n1, rest) := digits body 0%Z 0 in
  let '(mant, n2, rest') :=
    match rest with
    | String "." r => digits r int 0
    | _ => (int, 0, rest)
    end in
  match rest' with
  | EmptyString =>
      if ((0 <? n1 + n2) && (n1 + n2 <=? 15))%nat then
        let f := (ofZ mant / ofZ (10 ^ Z.of_nat n2))%float in
        Some (if neg then (- f)%float else f)
      else None
  | _ => None
  end.

End Strconv.

(* ================================================================= *)
(** ** sort.Sort *)

Module Sort.

Section InsertionSort.
Context {A : Type}.
Variable less : A -> A -> bool.

(** The inner loop of Go's [insertionSort]:
    [for j := i; j > a && data.Less(j, j-1); j-- { data.Swap(j, j-1) }].
    [before] is the part of the slice left of [x], nearest element first;
    the result is that part with [x] put in place, again nearest (that is,
    rightmost) element first. *)
Fixpoint sink (x : A) (before : list A) : list A :=
  match before with
  | [] => [x]
  | y :: r => if less x y then y :: sink x r else x :: before
  end.

(** The outer loop, [for i := a + 1; i < b; i++]. *)
Definition insertionSort (l : list A) : list A :=
  rev (fold_left (fun before x => sink x before) l []).

(** [sort.Sort(data)].  Go sorts a slice of at most twelve elements by
    [insertionSort] itself, and a longer one by pattern-defeating quicksort,
    whose result is the same whenever [Less] orders the elements totally
    (no two of them compare equal, none is a NaN); the sort is not
    stable. *)
Definition Sort (l : list A) : list A := insertionSort l.

(** [sort.Reverse]: [Less(i, j)] of the reversed order is [Less(j, i)]. *)
Definition Reverse : A -> A -> bool := fun a b => less b a.

(** [a] stands before [b] (or after it) without the two being out of
    order. *)
Definition notAfter (a b : A) : Prop := less b a = false.
Definition notBefore (a b : A) : Prop := less a b = false.

End InsertionSort.

End Sort.

(* ================================================================= *)
(** ** map[float64]V *)

(** A Go map keyed by [float64] compares keys with [==]: [0] and [-0] are one
    key, and a NaN key is never found again. *)
Module FloatMap.

Section Map.
Context {V : Type}.

Definition t : Type := list (float64 * V).

Definition empty : t := [].

(** [v, ok := m[k]] *)
Fixpoint lookup (k : float64) (m : t) : option V :=
  match m with
  | [] => None
  | (k', v) :: r => if F64.eq k' k then Some v else lookup k r
  end.

(** [m[k] = v] *)
Fixpoint store (k : float64) (v : V) (m : t) : t :=
  match m with
  | [] => [(k, v)]
  | (k', v') :: r => if F64.eq k' k then (k, v) :: r else (k', v') :: store k v r
  end.

End Map.

Arguments t : clear implicits.

End FloatMap.

(* ================================================================= *)
(** ** The data model *)

(** [type Status int] with its four constants. *)
Inductive Status : Set := Ignored | Applied | Pending | Error.

Definition Status_String (s : Status) : string :=
  match s with
  | Ignored => "IGNORED"
  | Applied => "APPLIED"
  | Pending => "PENDING"
  | Error => "ERROR"
  end.

Record Migration : Set := mkMigration {
  Version : float64;
  Description : string;
  Script : string
}.

(** The zero value [Migration{}]. *)
Definition zeroMigration : Migration := mkMigration F64.zero "" "".

Definition withScript (m : Migration) (s : string) : Migration :=
  mkMigration (Version m) (Description m) s.

Definition withDescription (m : Migration) (d : string) : Migration :=
  mkMigration (Version m) d (Script m).

(** [time.Time] and [time.Duration], as numbers of nanoseconds. *)
Definition Time : Set := Z.
Definition Duration : Set := Z.

(** Modelled from the spec: the struct [MigrationRecord], which darwin.go
    uses and another file of the package declares.  Section 3 of the
    specification lists its fields: version, description, checksum,
    applied_at, execution_time. *)
Module MigrationRecord.
Record t : Set := mk {
  Version : float64;
  Description : string;
  Checksum : string;
  AppliedAt : Time;
  ExecutionTime : Duration
}.
End MigrationRecord.

Abbreviation MigrationRecord := MigrationRecord.t.

(** Go's [error] values: the four error types of the engine, and any other
    error (a driver's). *)
Inductive error : Set :=
| DuplicateMigrationVersionError (version : float64)
| IllegalMigrationVersionError (version : float64)
| RemovedMigrationError (version : float64)
| InvalidChecksumError (version : float64)
| OtherError (msg : string).

Record MigrationInfo : Set := mkMigrationInfo {
  InfoStatus : Status;
  InfoError : option error;
  InfoMigration : Migration
}.

(** A run-time panic of Go. *)
Inductive panic : Set :=
| SliceBoundsOutOfRange (low len : nat)
| IndexOutOfRange (index len : nat).

Inductive outcome (A : Type) : Type :=
| Returns (a : A)
| Panics (p : panic).

Arguments Returns {A} a.
Arguments Panics {A} p.

(* ================================================================= *)
(** ** ParseMigrations *)

(** What [ParseMigrations] hands back: the slice [migrations[1:]], or, after
    [fmt.Printf("Error: %v", err)] for the payload [strconv.ParseFloat]
    refused, the nil slice. *)
Inductive parsed : Set :=
| Migrations (l : list Migration)
| NilAfterError (payload : string).

Module Parse.

Import Strings.

(** The three locals of the loop: [migrations], [m] and [script]. *)
Record state : Set := mkState {
  migrations : list Migration;
  m : Migration;
  script : string
}.

Definition init : state := mkState [] zeroMigration "".

Inductive step : Set :=
| Next (st : state)
| ReturnNil (payload : string)
| Panic (p : panic).

(** The two [case] conditions of the [switch]. *)
Definition normalized (v : string) : string := ReplaceFirstSpace (ToLower v).
Definition isVersionLine (v : string) : bool := HasPrefix (normalized v) "--version:".
Definition isDescriptionLine (v : string) : bool :=
  HasPrefix (normalized v) "--description:".

Section Parser.
(** [strconv.ParseFloat(s, 64)]: the float when [err == nil]. *)
Variable ParseFloat : string -> option float64.

(** One turn of the [for scanner.Scan()] loop, on the line [v]. *)
Definition line (st : state) (v : string) : step :=
  if isVersionLine v then
    let migrations' := migrations st ++ [withScript (m st) (script st)] in
    match sliceFrom 11 v with
    | None => Panic (SliceBoundsOutOfRange 11 (String.length v))
    | Some payload =>
        match ParseFloat (TrimSpace payload) with
        | None => ReturnNil (TrimSpace payload)
        | Some f => Next (mkState migrations' (mkMigration f "" "") "")
        end
    end
  else if isDescriptionLine v then
    match sliceFrom 15 v with
    | None => Panic (SliceBoundsOutOfRange 15 (String.length v))
    | Some d => Next (mkState (migrations st) (withDescription (m st) (TrimSpace d)) (script st))
    end
  else Next (mkState (migrations st) (m st) (script st ++ v ++ String "010" ""))%string.

(** The loop over the scanned lines, then
    [m.Script = script; migrations = append(migrations, m); return migrations[1:]]. *)
Fixpoint lines (st : state) (vs : list string) : outcome parsed :=
  match vs with
  | [] => Returns (Migrations (tl (migrations st ++ [withScript (m st) (script st)])))
  | v :: rest =>
      match line st v with
      | Next st' => lines st' rest
      | ReturnNil payload => Returns (NilAfterError payload)
      | Panic p => Panics p
      end
  end.

Definition ParseMigrations (s : string) : outcome parsed :=
  lines init (ScanLines s).

End Parser.

End Parse.

Abbreviation ParseMigrations := Parse.ParseMigrations.

(* ================================================================= *)
(** ** The Driver interface *)

(** Modelled from the spec: the interface [Driver], which darwin.go uses
    and another file of the package declares.  Section 6 of the
    specification gives its four operations, and the engine calls them as
    [d.Create()], [d.All()], [d.Insert(record)] and [d.Exec(script)].  A
    driver is a state [D] that every call may change; a call answers with
    Go's result tuple. *)
Class Driver (D : Type) : Type := {
  Create : D -> option error * D;
  All : D -> (list MigrationRecord * option error) * D;
  Insert : MigrationRecord -> D -> option error * D;
  Exec : string -> D -> (Duration * option error) * D
}.

(** One call of the engine on its driver, with what the driver answered. *)
Inductive event : Set :=
| CreateCalled (err : option error)
| AllCalled (records : list MigrationRecord) (err : option error)
| ExecCalled (script : string) (err : option error)
| InsertCalled (record : MigrationRecord) (err : option error).

(** What a run of the engine works on: the driver, the calls made on it so
    far (latest last), and the number of readings taken of the clock. *)
Record world (D : Type) : Type := mkWorld {
  driver : D;
  calls : list event;
  ticks : nat
}.

Arguments mkWorld {D} driver calls ticks.
Arguments driver {D} w.
Arguments calls {D} w.
Arguments ticks {D} w.

Definition start {D : Type} (d : D) : world D := mkWorld d [] 0.

(** Modelled from the spec: a driver that keeps the bookkeeping table in
    memory, as section 6 of the specification words the capability.
    [Create] ensures the table exists, [All] returns every record,
    [Insert] appends one record and fails on a version that is already
    there, [Exec] runs a script.  Which scripts fail, and how long a script
    takes, is given by [fails] and [elapsed]. *)
Module Memory.

Record db : Set := mkDb {
  tableExists : bool;
  rows : list MigrationRecord.t;
  executed : list string
}.

Definition hasVersion (v : float64) (rs : list MigrationRecord.t) : bool :=
  existsb (fun r => F64.eq (MigrationRecord.Version r) v) rs.

Section Instance.
Variable fails : string -> option error.
Variable elapsed : string -> Duration.

Definition create (d : db) : option error * db :=
  (None, mkDb true (rows d) (executed d)).

Definition all (d : db) : (list MigrationRecord.t * option error) * db :=
  ((rows d, None), d).

Definition insert (r : MigrationRecord.t) (d : db) : option error * db :=
  if hasVersion (MigrationRecord.Version r) (rows d)
  then (Some (OtherError "Duplicate entry for key version"), d)
  else (None, mkDb (tableExists d) (rows d ++ [r]) (executed d)).

Definition exec (script : string) (d : db) : (Duration * option error) * db :=
  match fails script with
  | Some e => ((0%Z, Some e), d)
  | None => ((elapsed script, None), mkDb (tableExists d) (rows d) (executed d ++ [script]))
  end.

#[export] Instance driver : Driver db := {
  Create := create;
  All := all;
  Insert := insert;
  Exec := exec
}.

End Instance.

Definition empty : db := mkDb false [] [].

End Memory.

(* ================================================================= *)
(** ** The engine: Validate, Info, Migrate *)

(** [func (m Migration) Checksum() string] *)
Definition Checksum (m : Migration) : string := MD5.hexSum (Script m).

(** [type byMigrationVersion []Migration]: its [Less]. *)
Definition byMigrationVersion (a b : Migration) : bool :=
  F64.lt (Version a) (Version b).

(** Modelled from the spec: [byMigrationRecordVersion], the [sort.Interface]
    over [[]MigrationRecord] that [Info] and [planMigration] reverse,
    declared after [byMigrationVersion].  Section 4.5 of the specification
    has the records sorted by version, so its [Less] compares versions as
    that of [byMigrationVersion] does. *)
Definition byMigrationRecordVersion (a b : MigrationRecord) : bool :=
  F64.lt (MigrationRecord.Version a) (MigrationRecord.Version b).

Fixpoint isInvalidVersion (migrations : list Migration) : float64 * bool :=
  match migrations with
  | [] => (F64.zero, false)
  | migration :: rest =>
      let version := Version migration in
      if F64.lt version F64.zero then (version, true) else isInvalidVersion rest
  end.

(** The loop of [isDuplicated], with the map [unique] it fills. *)
Fixpoint isDuplicatedFrom (unique : FloatMap.t Migration) (migrations : list Migration)
  : float64 * bool :=
  match migrations with
  | [] => (F64.zero, false)
  | migration :: rest =>
      match FloatMap.lookup (Version migration) unique with
      | Some _ => (Version migration, true)
      | None => isDuplicatedFrom (FloatMap.store (Version migration) migration unique) rest
      end
  end.

Definition isDuplicated (migrations : list Migration) : float64 * bool :=
  isDuplicatedFrom FloatMap.empty migrations.

(** [versionMap] of [wasRemovedMigration], filled from the migrations. *)
Definition migrationMap (migrations : list Migration) : FloatMap.t Migration :=
  fold_left (fun vm migration => FloatMap.store (Version migration) migration vm)
            migrations FloatMap.empty.

Fixpoint wasRemovedFrom (versionMap : FloatMap.t Migration) (applied : list MigrationRecord)
  : float64 * bool :=
  match applied with
  | [] => (F64.zero, false)
  | migration :: rest =>
      match FloatMap.lookup (MigrationRecord.Version migration) versionMap with
      | None => (MigrationRecord.Version migration, true)
      | Some _ => wasRemovedFrom versionMap rest
      end
  end.

Definition wasRemovedMigration (applied : list MigrationRecord) (migrations : list Migration)
  : float64 * bool :=
  wasRemovedFrom (migrationMap migrations) applied.

(** [versionMap] of [isInvalidChecksumMigration], filled from the records. *)
Definition recordMap (applied : list MigrationRecord) : FloatMap.t MigrationRecord :=
  fold_left (fun vm migration => FloatMap.store (MigrationRecord.Version migration) migration vm)
            applied FloatMap.empty.

Fixpoint isInvalidChecksumFrom (versionMap : FloatMap.t MigrationRecord)
  (migrations : list Migration) : float64 * bool :=
  match migrations with
  | [] => (F64.zero, false)
  | migration :: rest =>
      match FloatMap.lookup (Version migration) versionMap with
      | Some m =>
          if String.eqb (MigrationRecord.Checksum m) (Checksum migration)
          then isInvalidChecksumFrom versionMap rest
          else (Version migration, true)
      | None => isInvalidChecksumFrom versionMap rest
      end
  end.

Definition isInvalidChecksumMigration (applied : list MigrationRecord)
  (migrations : list Migration) : float64 * bool :=
  isInvalidChecksumFrom (recordMap applied) migrations.

(** [getStatus]: [inDatabase[0]] panics on an empty slice. *)
Definition getStatus (inDatabase : list MigrationRecord) (migration : Migration)
  : outcome Status :=
  match inDatabase with
  | [] => Panics (IndexOutOfRange 0 0)
  | last :: _ =>
      if F64.gt (Version migration) (MigrationRecord.Version last) then Returns Pending
      else
        let found :=
          fold_left (fun found record =>
                       if F64.eq (MigrationRecord.Version record) (Version migration)
                       then true else found)
                    inDatabase false in
        if negb found then Returns Ignored else Returns Applied
  end.

Section Engine.
Context {D : Type} {drv : Driver D}.

(** [time.Now()]: the value of the n-th reading of the clock. *)
Variable timeNow : nat -> Time.

(** The four calls on the driver, each written to [calls]. *)
Definition callCreate (w : world D) : option error * world D :=
  let '(err, d) := Create (driver w) in
  (err, mkWorld d (calls w ++ [CreateCalled err]) (ticks w)).

Definition callAll (w : world D) : (list MigrationRecord * option error) * world D :=
  let '((records, err), d) := All (driver w) in
  ((records, err), mkWorld d (calls w ++ [AllCalled records err]) (ticks w)).

Definition callInsert (r : MigrationRecord) (w : world D) : option error * world D :=
  let '(err, d) := Insert r (driver w) in
  (err, mkWorld d (calls w ++ [InsertCalled r err]) (ticks w)).

Definition callExec (script : string) (w : world D) : (Duration * option error) * world D :=
  let '((dur, err), d) := Exec script (driver w) in
  ((dur, err), mkWorld d (calls w ++ [ExecCalled script err]) (ticks w)).

Definition now (w : world D) : Time * world D :=
  (timeNow (ticks w), mkWorld (driver w) (calls w) (S (ticks w))).

(** [Validate(d, migrations)].  The slice [migrations] is sorted in place:
    the second component of the result is what the caller's slice holds
    when [Validate] returns. *)
Definition Validate (w : world D) (migrations : list Migration)
  : (option error * list Migration) * world D :=
  let migrations := Sort.Sort byMigrationVersion migrations in
  match isInvalidVersion migrations with
  | (version, true) => ((Some (IllegalMigrationVersionError version), migrations), w)
  | (_, false) =>
  match isDuplicated migrations with
  | (version, true) => ((Some (DuplicateMigrationVersionError version), migrations), w)
  | (_, false) =>
  let '((applied, err), w) := callAll w in
  match err with
  | Some e => ((Some e, migrations), w)
  | None =>
  match wasRemovedMigration applied migrations with
  | (version, true) => ((Some (RemovedMigrationError version), migrations), w)
  | (_, false) =>
  match isInvalidChecksumMigration applied migrations with
  | (version, true) => ((Some (InvalidChecksumError version), migrations), w)
  | (_, false) => ((None, migrations), w)
  end end end end end.

(** The loop of [Info] over the migrations. *)
Fixpoint infoOf (records : list MigrationRecord) (migrations : list Migration)
  : outcome (list MigrationInfo) :=
  match migrations with
  | [] => Returns []
  | migration :: rest =>
      match getStatus records migration with
      | Panics p => Panics p
      | Returns status =>
          match infoOf records rest with
          | Panics p => Panics p
          | Returns info => Returns (mkMigrationInfo status None migration :: info)
          end
      end
  end.

(** [Info(d, migrations)] *)
Definition Info (w : world D) (migrations : list Migration)
  : outcome (list MigrationInfo * option error) * world D :=
  let '((records, err), w) := callAll w in
  match err with
  | Some e => (Returns ([], Some e), w)
  | None =>
      let records := Sort.Sort (Sort.Reverse byMigrationRecordVersion) records in
      match infoOf records migrations with
      | Panics p => (Panics p, w)
      | Returns info => (Returns (info, None), w)
      end
  end.

(** [planMigration(d, migrations)].  [records[0]] is read after
    [len(records) == 0] was excluded; sorting keeps the length, so the
    default of [hd] is never used. *)
Definition planMigration (w : world D) (migrations : list Migration)
  : (list Migration * option error) * world D :=
  let '((records, err), w) := callAll w in
  match err with
  | Some e => (([], Some e), w)
  | None =>
      match records with
      | [] => ((migrations, None), w)
      | first :: _ =>
          let records := Sort.Sort (Sort.Reverse byMigrationRecordVersion) records in
          let last := hd first records in
          let planned :=
            filter (fun migration => F64.gt (Version migration) (MigrationRecord.Version last))
                   migrations in
          ((Sort.Sort byMigrationVersion planned, None), w)
      end
  end.

(** The loop of [Migrate] over the planned migrations. *)
Fixpoint applyPlanned (planned : list Migration) (w : world D) : option error * world D :=
  match planned with
  | [] => (None, w)
  | migration :: rest =>
      let '((dur, err), w) := callExec (Script migration) w in
      match err with
      | Some e => (Some e, w)
      | None =>
          let '(appliedAt, w) := now w in
          let '(err, w) :=
            callInsert (MigrationRecord.mk (Version migration) (Description migration)
                                           (Checksum migration) appliedAt dur) w in
          match err with
          | Some e => (Some e, w)
          | None => applyPlanned rest w
          end
      end
  end.

(** [Migrate(d, migrations)].  [mutex.Lock()] and the deferred
    [mutex.Unlock()] let one call run at a time; a run is sequential here.
    As for [Validate], the second component of the result is the caller's
    slice when [Migrate] returns. *)
Definition Migrate (w : world D) (migrations : list Migration)
  : (option error * list Migration) * world D :=
  let '(err, w) := callCreate w in
  match err with
  | Some e => ((Some e, migrations), w)
  | None =>
  let '((err, migrations), w) := Validate w migrations in
  match err with
  | Some e => ((Some e, migrations), w)
  | None =>
  let '((planned, err), w) := planMigration w migrations in
  match err with
  | Some e => ((Some e, migrations), w)
  | None =>
  let '(err, w) := applyPlanned planned w in
  ((err, migrations), w)
  end end end.

End Engine.

(* ================================================================= *)
(** ** The properties, in the words of the specification *)

Module Says.

(** The keys of [l] are pairwise different under [==]. *)
Fixpoint distinct {A : Type} (key : A -> float64) (l : list A) : Prop :=
  match l with
  | [] => True
  | a :: r => Forall (fun b => F64.eq (key a) (key b) = false) r /\ distinct key r
  end.

(** No version is NaN. *)
Definition numbers (migrations : list Migration) : Prop :=
  Forall (fun m => F64.isNaN (Version m) = false) migrations.

Definition numbered (records : list MigrationRecord) : Prop :=
  Forall (fun r => F64.isNaN (MigrationRecord.Version r) = false) records.

(** Strictly ascending by version. *)
Definition strictlyAscending (migrations : list Migration) : Prop :=
  StronglySorted (fun a b => F64.lt (Version a) (Version b) = true) migrations.

(** Section 4.2, step 2: a migration with version [< 0]. *)
Definition illegal (migrations : list Migration) (v : float64) : Prop :=
  exists m, In m migrations /\ Version m = v /\ F64.lt v F64.zero = true.

(** Step 3: two migrations sharing a version. *)
Definition duplicate (migrations : list Migration) (v : float64) : Prop :=
  exists m1 m2 rest,
    Permutation migrations (m1 :: m2 :: rest) /\
    F64.eq (Version m1) (Version m2) = true /\ Version m2 = v.

(** Step 5: an applied record whose version has no entry among the
    migrations. *)
Definition removed (applied : list MigrationRecord) (migrations : list Migration)
  (v : float64) : Prop :=
  exists r, In r applied /\ MigrationRecord.Version r = v /\
    Forall (fun m => F64.eq (Version m) v = false) migrations.

(** Step 6: an applied record whose version matches a migration and whose
    stored checksum differs from the one computed afresh. *)
Definition drifted (applied : list MigrationRecord) (migrations : list Migration)
  (v : float64) : Prop :=
  exists r m, In r applied /\ In m migrations /\
    F64.eq (MigrationRecord.Version r) (Version m) = true /\
    MigrationRecord.Checksum r <> Checksum m /\ Version m = v.

(** The contract of the Validator: the checks in their order, each one
    reached only when those before it passed.  [history] is the driver's
    answer to [All]; [fetched] tells whether it was asked for. *)
Inductive Validate (migrations : list Migration)
  (history : list MigrationRecord * option error) : bool -> option error -> Prop :=
| IllegalVersion v :
    illegal migrations v ->
    Validate migrations history false (Some (IllegalMigrationVersionError v))
| DuplicateVersion v :
    (forall u, ~ illegal migrations u) ->
    duplicate migrations v ->
    Validate migrations history false (Some (DuplicateMigrationVersionError v))
| FetchFailed e :
    (forall u, ~ illegal migrations u) ->
    (forall u, ~ duplicate migrations u) ->
    snd history = Some e ->
    Validate migrations history true (Some e)
| RemovedMigration v :
    (forall u, ~ illegal migrations u) ->
    (forall u, ~ duplicate migrations u) ->
    snd history = None ->
    removed (fst history) migrations v ->
    Validate migrations history true (Some (RemovedMigrationError v))
| ChecksumDrift v :
    (forall u, ~ illegal migrations u) ->
    (forall u, ~ duplicate migrations u) ->
    snd history = None ->
    (forall u, ~ removed (fst history) migrations u) ->
    drifted (fst history) migrations v ->
    Validate migrations history true (Some (InvalidChecksumError v))
| Valid :
    (forall u, ~ illegal migrations u) ->
    (forall u, ~ duplicate migrations u) ->
    snd history = None ->
    (forall u, ~ removed (fst history) migrations u) ->
    (forall u, ~ drifted (fst history) migrations u) ->
    Validate migrations history true None.

End Says.

(** The migration set after the script of the migration with version [v]
    was changed to [script]: the versions stay as they were. *)
Definition rescript (v : float64) (script : string) (x : Migration) : Migration :=
  if F64.eq (Version x) v then withScript x script else x.

(** The record [Migrate] inserts for a migration carries its version, its
    description and the checksum of its script. *)
Definition recordOf (m : Migration) (r : MigrationRecord) : Prop :=
  MigrationRecord.Version r = Version m /\
  MigrationRecord.Description r = Description m /\
  MigrationRecord.Checksum r = Checksum m.

(** The calls of a run of the loop of [Migrate] in which every migration was
    executed and recorded: for each one [Exec], then [Insert]. *)
Definition appliedCalls (planned : list Migration) (records : list MigrationRecord)
  : list event :=
  flat_map (fun mr => [ExecCalled (Script (fst mr)) None; InsertCalled (snd mr) None])
           (combine planned records).

(** The plan as a function of the records the driver returned: what
    [planMigration] computes once [All] has answered without error. *)
Definition planFor (records : list MigrationRecord) (migrations : list Migration)
  : list Migration :=
  match records with
  | [] => migrations
  | first :: _ =>
      let last := hd first (Sort.Sort (Sort.Reverse byMigrationRecordVersion) records) in
      Sort.Sort byMigrationVersion
        (filter (fun m => F64.gt (Version m) (MigrationRecord.Version last)) migrations)
  end.

(** A line on which the fixed offsets [v[11:]] and [v[15:]] stay within the
    line. *)
Definition withinBounds (v : string) : Prop :=
  (Parse.isVersionLine v = true -> 11 <= String.length v) /\
  (Parse.isVersionLine v = false -> Parse.isDescriptionLine v = true ->
   15 <= String.length v).


(* ================================================================= *)
(** ** A small database and migration set to run the engine on *)

Module Example.

Local Open Scope string_scope.

(** Every script runs in five nanoseconds, and the script [FAIL] fails. *)
Definition fails (script : string) : option error :=
  if String.eqb script "FAIL" then Some (OtherError "script failed") else None.

Definition elapsed (script : string) : Duration := 5%Z.

Definition clock (n : nat) : Time := Z.of_nat n.

Definition drv : Driver Memory.db := Memory.driver fails elapsed.

Definition users : Migration := mkMigration 1%float "create users" "CREATE TABLE users (id INT);".
Definition emails : Migration := mkMigration 2%float "add email" "ALTER TABLE users ADD email TEXT;".
Definition broken : Migration := mkMigration 3%float "does not run" "FAIL".
Definition orders : Migration := mkMigration 4%float "create orders" "CREATE TABLE orders (id INT);".

(** The record of [users], as [Migrate] writes it. *)
Definition usersRecord : MigrationRecord :=
  MigrationRecord.mk 1%float "create users" (Checksum users) 0%Z 5%Z.

(** A table holding the record of [users]. *)
Definition db1 : Memory.db := Memory.mkDb true [usersRecord] [Script users].

End Example.

(** Section 4.5: the status of a migration against a history that is not
    empty.  [Pending] above every applied version, else [Applied] when a
    record has its version, else [Ignored]. *)
Inductive statusSaid (records : list MigrationRecord) (m : Migration) : Status -> Prop :=
| SaidPending :
    Forall (fun r => F64.gt (Version m) (MigrationRecord.Version r) = true) records ->
    statusSaid records m Pending
| SaidApplied r :
    In r records -> F64.eq (MigrationRecord.Version r) (Version m) = true ->
    statusSaid records m Applied
| SaidIgnored top :
    In top records -> F64.gt (Version m) (MigrationRecord.Version top) = false ->
    Forall (fun r => F64.eq (MigrationRecord.Version r) (Version m) = false) records ->
    statusSaid records m Ignored.

(* ================================================================= *)
(** ** Status as an int *)

(** [type Status int]: the four constants are [iota] from 0 on, and a
    [Status] may hold any other [int] (a conversion [Status(7)], say). *)
Definition Status_value (s : Status) : Z :=
  match s with
  | Ignored => 0
  | Applied => 1
  | Pending => 2
  | Error => 3
  end.

(** [func (s Status) String() string], on every value of the type; the
    [default] case is reached by the values that are none of the four
    constants. *)
Definition Status_String_of (s : Z) : string :=
  if (s =? Status_value Ignored)%Z then "IGNORED"
  else if (s =? Status_value Applied)%Z then "APPLIED"
  else if (s =? Status_value Pending)%Z then "PENDING"
  else if (s =? Status_value Error)%Z then "ERROR"
  else "INVALID".

(* ================================================================= *)
(** ** The texts of the errors *)

Section Messages.
(** [fmt.Sprintf("%f", v)] for a [float64]: the text of a version. *)
Variable formatFloat : float64 -> string.

(** The [Error()] methods of the four error types.  An error of the driver
    has the text it was made with. *)
Definition ErrorOf (e : error) : string :=
  match e with
  | DuplicateMigrationVersionError version =>
      "Multiple migrations have the version number " ++ formatFloat version ++ "."
  | IllegalMigrationVersionError version =>
      "Illegal migration version number " ++ formatFloat version ++ "."
  | RemovedMigrationError version =>
      "Migration " ++ formatFloat version ++ " was removed"
  | InvalidChecksumError version =>
      "Invalid cheksum for migration " ++ formatFloat version
  | OtherError msg => msg
  end%string.

End Messages.

(* ================================================================= *)
(** ** The Darwin struct *)

(** [type Darwin struct { driver Driver; migrations []Migration }].  Both
    fields refer to state that the calls change: the driver's, and the array
    behind the slice, which [Validate] sorts in place.  The methods have
    value receivers, so a [Darwin] keeps referring to the same driver and
    the same array; the record here holds the two as the calls made so far
    have left them, and every method hands back the [Darwin] as it is seen
    after the call. *)
Module Darwin.

Record t (D : Type) : Type := mk {
  driver : world D;
  migrations : list Migration
}.

Arguments mk {D} driver migrations.
Arguments driver {D} _.
Arguments migrations {D} _.

Section Methods.
Context {D : Type} {drv : Driver D}.
Variable timeNow : nat -> Time.

(** [func (d Darwin) Validate() error] *)
Definition Validate (d : t D) : option error * t D :=
  let '((err, slice), w) := Validate (driver d) (migrations d) in
  (err, mk w slice).

(** [func (d Darwin) Migrate() error] *)
Definition Migrate (d : t D) : option error * t D :=
  let '((err, slice), w) := Migrate timeNow (driver d) (migrations d) in
  (err, mk w slice).

(** [func (d Darwin) Info() ([]MigrationInfo, error)] *)
Definition Info (d : t D) : outcome (list MigrationInfo * option error) * t D :=
  let '(result, w) := Info (driver d) (migrations d) in
  (result, mk w (migrations d)).

End Methods.

End Darwin.


(* ================================================================= *)
(** ** ParseMigrationsDirFiles *)

(** [embed.FS], through the two methods [ParseMigrationsDirFiles] calls.
    [ReadDir] answers with the entries of a directory, sorted by file name;
    an entry is used for its [Name()] only, and is that name here.
    [ReadFile] answers with the bytes of a file. *)
Record FS : Type := mkFS {
  ReadDir : string -> list string * option error;
  ReadFile : string -> string * option error
}.

Section DirFiles.
Variable ParseFloat : string -> option float64.

(** The loop over the files.  [append(migrations, migs...)] adds nothing
    when [ParseMigrations] has handed back the nil slice; the slices are
    lists here, so the nil slice and the empty one are both the empty
    list. *)
Fixpoint parseFiles (fsys : FS) (dirName : string) (migrations : list Migration)
  (files : list string) : outcome (list Migration * option error) :=
  match files with
  | [] => Returns (migrations, None)
  | file :: rest =>
      let '(readFile, err) := ReadFile fsys (dirName ++ "/" ++ file)%string in
      match err with
      | Some e => Returns ([], Some e)
      | None =>
          match ParseMigrations ParseFloat readFile with
          | Panics p => Panics p
          | Returns (Migrations migs) => parseFiles fsys dirName (migrations ++ migs) rest
          | Returns (NilAfterError _) => parseFiles fsys dirName migrations rest
          end
      end
  end.

(** [func ParseMigrationsDirFiles(fsys embed.FS, dirName string) ([]Migration, error)] *)
Definition ParseMigrationsDirFiles (fsys : FS) (dirName : string)
  : outcome (list Migration * option error) :=
  let '(files, err) := ReadDir fsys dirName in
  match err with
  | Some e => Returns ([], Some e)
  | None => parseFiles fsys dirName [] files
  end.

(** The migrations a file adds to the result. *)
Definition migrationsOf (fsys : FS) (dirName file : string) : list Migration :=
  match ParseMigrations ParseFloat (fst (ReadFile fsys (dirName ++ "/" ++ file)%string)) with
  | Returns (Migrations migs) => migs
  | _ => []
  end.

(** A file that is read without error and parsed without panic. *)
Definition readable (fsys : FS) (dirName file : string) : Prop :=
  snd (ReadFile fsys (dirName ++ "/" ++ file)%string) = None /\
  forall p, ParseMigrations ParseFloat (fst (ReadFile fsys (dirName ++ "/" ++ file)%string))
            <> Panics p.

End DirFiles.

(** A directory held in memory: the files with their contents, in the order
    of their names. *)
Definition directory (name : string) (files : list (string * string)) : FS :=
  mkFS (fun dirName =>
          if String.eqb dirName name then (map fst files, None)
          else ([], Some (OtherError "file does not exist")))
       (fun path =>
          match find (fun f => String.eqb path (name ++ "/" ++ fst f)%string) files with
          | Some f => (snd f, None)
          | None => (EmptyString, Some (OtherError "file does not exist"))
          end).

(** A driver on a table that takes no record: [Create], [All] and [Exec]
    are those of the driver in memory, [Insert] fails. *)
Definition readOnly (fails : string -> option error) (elapsed : string -> Duration)
  : Driver Memory.db :=
  {| Create := Memory.create;
     All := Memory.all;
     Insert := fun _ d => (Some (OtherError "table is read-only"), d);
     Exec := Memory.exec fails elapsed |}.

(* ================================================================= *)
(** ** Runs of the engine, as the calls made on the driver *)

(** What the driver answered to a call. *)
Definition answer (ev : event) : option error :=
  match ev with
  | CreateCalled err => err
  | AllCalled _ err => err
  | ExecCalled _ err => err
  | InsertCalled _ err => err
  end.

Definition answered (ev : event) : Prop := answer ev = None.

(** The errors [Validate] makes itself. *)
Definition validationError (e : error) : Prop :=
  match e with
  | OtherError _ => False
  | _ => True
  end.

(** A run that ends at the first call the driver answers with an error,
    handing that error back; a run in which every call was answered without
    error ends with no error or with one of [Validate]'s own. *)
Definition stopsAtFirstError (made : list event) (result : option error) : Prop :=
  (Forall answered made /\
   (result = None \/ exists e, result = Some e /\ validationError e))
  \/
  (exists before failed e,
      made = before ++ [failed] /\ Forall answered before /\
      answer failed = Some e /\ result = Some e).

(** The record [Migrate] makes of a migration executed in [dur], at the
    [tick]-th reading of the clock. *)
Definition recordAt (timeNow : nat -> Time) (tick : nat) (dur : Duration) (m : Migration)
  : MigrationRecord :=
  MigrationRecord.mk (Version m) (Description m) (Checksum m) (timeNow tick) dur.

(* ================================================================= *)
(** ** The plan and the statuses, in the words of the specification *)

(** The version of [m] is greater than that of every record. *)
Definition aboveAll (records : list MigrationRecord) (m : Migration) : bool :=
  forallb (fun r => F64.gt (Version m) (MigrationRecord.Version r)) records.

Definition isPending (i : MigrationInfo) : bool :=
  match InfoStatus i with
  | Pending => true
  | _ => false
  end.

(** Two results of [Validate] that stop at the same check: the same error
    type, whatever version it carries, or the same driver error, or no
    error at all. *)
Definition sameCheck (a b : option error) : Prop :=
  match a, b with
  | None, None => True
  | Some (IllegalMigrationVersionError _), Some (IllegalMigrationVersionError _) => True
  | Some (DuplicateMigrationVersionError _), Some (DuplicateMigrationVersionError _) => True
  | Some (RemovedMigrationError _), Some (RemovedMigrationError _) => True
  | Some (InvalidChecksumError _), Some (InvalidChecksumError _) => True
  | Some (OtherError x), Some (OtherError y) => x = y
  | _, _ => False
  end.

(* ================================================================= *)
(** ** Texts and blocks *)

Module Text.

Import Strings.

(** The text with every line feed turned into carriage return, line feed. *)
Fixpoint crlf (s : string) : string :=
  match s with
  | EmptyString => EmptyString
  | String c r =>
      if Ascii.eqb c "010" then String "013" (String "010" (crlf r))
      else String c (crlf r)
  end.

(** No byte of the text is a carriage return. *)
Fixpoint noCR (s : string) : bool :=
  match s with
  | EmptyString => true
  | String c r => negb (Ascii.eqb c "013") && noCR r
  end.

(** The text is not empty and its last byte is no line feed. *)
Fixpoint openEnded (s : string) : bool :=
  match s with
  | EmptyString => false
  | String c EmptyString => negb (Ascii.eqb c "010")
  | String _ r => openEnded r
  end.




(** Every line of the text is shorter than 65535 bytes. *)
Definition shortLines (s : string) : Prop :=
  Forall (fun v => (N.of_nat (String.length v) + 1 < MaxScanTokenSize)%N) (ScanLines s).


End Text.

(** The sixteen digits of [%x]. *)
Definition isHexDigit (c : ascii) : bool :=
  existsb (Ascii.eqb c) (list_ascii_of_string "0123456789abcdef").

(* ================================================================= *)
(** ** Laws of the float64 comparisons *)

Module F64Facts.

Ltac sf_cases :=
  repeat match goal with
  | x : spec_float |- _ => destruct x
  | b : bool |- _ => destruct b
  end; simpl; try reflexivity; try discriminate.

Ltac cmp_cases :=
  repeat match goal with
  | |- context [Z.compare ?a ?b] => destruct (Z.compare_spec a b); subst
  | H : context [Z.compare ?a ?b] |- _ => destruct (Z.compare_spec a b); subst
  | |- context [Pos.compare_cont Eq ?a ?b] =>
      change (Pos.compare_cont Eq a b) with (Pos.compare a b);
      destruct (Pos.compare_spec a b); subst
  | H : context [Pos.compare_cont Eq ?a ?b] |- _ =>
      change (Pos.compare_cont Eq a b) with (Pos.compare a b) in H;
      destruct (Pos.compare_spec a b); subst
  end; simpl in *; try reflexivity; try discriminate; try lia.

Ltac by_cases := unfold SFeqb, SFltb, SFcompare; sf_cases; cmp_cases; auto.

Lemma SFltb_trans a b c : SFltb a b = true -> SFltb b c = true -> SFltb a c = true.
Proof. by_cases. Qed.

Lemma SFltb_asym a b : SFltb a b = true -> SFltb b a = false.
Proof. by_cases. Qed.

Lemma SFeqb_sym a b : SFeqb a b = SFeqb b a.
Proof. by_cases. Qed.

Lemma SFeqb_trans a b c : SFeqb a b = true -> SFeqb b c = true -> SFeqb a c = true.
Proof. by_cases. Qed.

Lemma SFeqb_ltb_l a b c : SFeqb a b = true -> SFltb a c = SFltb b c.
Proof. by_cases. Qed.

Lemma SFeqb_ltb_r a b c : SFeqb a b = true -> SFltb c a = SFltb c b.
Proof. by_cases. Qed.

Lemma SF_total a b :
  SFeqb a a = true -> SFeqb b b = true ->
  SFltb a b = true \/ SFeqb a b = true \/ SFltb b a = true.
Proof. by_cases. Qed.

Lemma SFeqb_not_ltb a b : SFeqb a b = true -> SFltb a b = false.
Proof. by_cases. Qed.

Lemma SFeqb_refl_l a b : SFeqb a b = true -> SFeqb a a = true.
Proof. by_cases. Qed.

Lemma SFltb_refl_l a b : SFltb a b = true -> SFeqb a a = true.
Proof. by_cases. Qed.

Lemma SFltb_refl_r a b : SFltb a b = true -> SFeqb b b = true.
Proof. by_cases. Qed.

Ltac to_spec := unfold F64.lt, F64.gt, F64.eq, F64.isNaN, PrimFloat.is_nan in *;
  rewrite ?FloatAxioms.ltb_spec, ?FloatAxioms.eqb_spec, ?negb_false_iff, ?negb_true_iff in *.

Lemma lt_trans a b c : F64.lt a b = true -> F64.lt b c = true -> F64.lt a c = true.
Proof. to_spec. apply SFltb_trans. Qed.

Lemma lt_asym a b : F64.lt a b = true -> F64.lt b a = false.
Proof. to_spec. apply SFltb_asym. Qed.

Lemma lt_irrefl a : F64.lt a a = false.
Proof. destruct (F64.lt a a) eqn:E; [ | reflexivity ]. now rewrite <- (lt_asym _ _ E). Qed.

Lemma eq_symmetric a b : F64.eq a b = F64.eq b a.
Proof. to_spec. apply SFeqb_sym. Qed.

Lemma eq_transitive a b c : F64.eq a b = true -> F64.eq b c = true -> F64.eq a c = true.
Proof. to_spec. apply SFeqb_trans. Qed.

Lemma eq_reflexive a : F64.isNaN a = false -> F64.eq a a = true.
Proof. now to_spec. Qed.

Lemma eq_lt_l a b c : F64.eq a b = true -> F64.lt a c = F64.lt b c.
Proof. to_spec. apply SFeqb_ltb_l. Qed.

Lemma eq_lt_r a b c : F64.eq a b = true -> F64.lt c a = F64.lt c b.
Proof. to_spec. apply SFeqb_ltb_r. Qed.

Lemma eq_not_lt a b : F64.eq a b = true -> F64.lt a b = false.
Proof. to_spec. apply SFeqb_not_ltb. Qed.

Lemma total a b :
  F64.isNaN a = false -> F64.isNaN b = false ->
  F64.lt a b = true \/ F64.eq a b = true \/ F64.lt b a = true.
Proof. to_spec. apply SF_total. Qed.

Lemma not_lt_trans a b c :
  F64.isNaN a = false -> F64.isNaN b = false ->
  F64.lt a b = false -> F64.lt b c = false -> F64.lt a c = false.
Proof.
  intros Ha Hb Hab Hbc. destruct (F64.lt a c) eqn:Hac; [ | reflexivity ].
  destruct (total a b Ha Hb) as [H | [H | H]].
  - congruence.
  - rewrite (eq_lt_l _ _ c H) in Hac. congruence.
  - rewrite (lt_trans _ _ _ H Hac) in Hbc. discriminate.
Qed.

Lemma eq_number_l a b : F64.eq a b = true -> F64.isNaN a = false.
Proof. to_spec. apply SFeqb_refl_l. Qed.

Lemma eq_number_r a b : F64.eq a b = true -> F64.isNaN b = false.
Proof. rewrite eq_symmetric. apply eq_number_l. Qed.

Lemma lt_number_l a b : F64.lt a b = true -> F64.isNaN a = false.
Proof. to_spec. apply SFltb_refl_l. Qed.

Lemma lt_number_r a b : F64.lt a b = true -> F64.isNaN b = false.
Proof. to_spec. apply SFltb_refl_r. Qed.

Lemma eq_eq_l a b c : F64.eq a b = true -> F64.eq a c = F64.eq b c.
Proof.
  intros H. destruct (F64.eq b c) eqn:E.
  - eapply eq_transitive; eauto.
  - destruct (F64.eq a c) eqn:E'; [ | reflexivity ].
    rewrite eq_symmetric in H. now rewrite (eq_transitive _ _ _ H E') in E.
Qed.

End F64Facts.

(* ================================================================= *)
(** ** Facts on the sort *)

Module SortFacts.

Section Snoc.
Context {A : Type}.
Variable R : A -> A -> Prop.

Lemma Sorted_snoc l x :
  Sorted R l -> HdRel (fun a b => R b a) x (rev l) -> Sorted R (l ++ [x]).
Proof.
  induction 1 as [ | a l' Hs IH Hhd ]; intros Hx; simpl in *.
  - repeat constructor.
  - constructor.
    + apply IH. destruct (rev l') as [ | c t ]; [ constructor | ].
      simpl in Hx. apply HdRel_inv in Hx. now constructor.
    + destruct l' as [ | b l'' ]; simpl in *.
      * apply HdRel_inv in Hx. now constructor.
      * apply HdRel_inv in Hhd. now constructor.
Qed.

End Snoc.

Lemma Sorted_rev {A : Type} (R : A -> A -> Prop) l :
  Sorted R l -> Sorted (fun a b => R b a) (rev l).
Proof.
  induction 1 as [ | a l' Hs IH Hhd ]; simpl.
  - constructor.
  - apply Sorted_snoc; [ exact IH | ]. now rewrite rev_involutive.
Qed.

(** On elements among which [R] is transitive, sorted is strongly sorted. *)
Lemma Sorted_StronglySorted_on {A : Type} (R : A -> A -> Prop) (good : A -> Prop) l :
  (forall a b c, good a -> good b -> good c -> R a b -> R b c -> R a c) ->
  Forall good l -> Sorted R l -> StronglySorted R l.
Proof.
  intros Htrans Hgood Hs. induction Hs as [ | a l' Hs IH Hhd ]; [ constructor | ].
  inversion Hgood as [ | ? ? Ha Hl' ]; subst.
  specialize (IH Hl'). constructor; [ exact IH | ].
  destruct IH as [ | b l'' Hss Hall ]; [ constructor | ].
  apply HdRel_inv in Hhd. constructor; [ exact Hhd | ].
  inversion Hl' as [ | ? ? Hb Hl'' ]; subst.
  rewrite Forall_forall in *. intros c Hc. eapply Htrans with (b := b); eauto.
Qed.

Section Facts.
Context {A : Type}.
Variable less : A -> A -> bool.

Local Abbreviation notAfter := (Sort.notAfter less).
Local Abbreviation notBefore := (Sort.notBefore less).

Lemma sink_perm x before : Permutation (x :: before) (Sort.sink less x before).
Proof.
  induction before as [ | y r IH ]; simpl; [ reflexivity | ].
  destruct (less x y); [ | reflexivity ].
  rewrite perm_swap. now constructor.
Qed.

Lemma fold_sink_perm l before :
  Permutation (l ++ before) (fold_left (fun b x => Sort.sink less x b) l before).
Proof.
  revert before. induction l as [ | x r IH ]; intros before; simpl; [ reflexivity | ].
  rewrite <- IH, <- (sink_perm x before). apply Permutation_middle.
Qed.

Lemma Sort_perm l : Permutation l (Sort.Sort less l).
Proof.
  unfold Sort.Sort, Sort.insertionSort. rewrite <- Permutation_rev.
  rewrite <- fold_sink_perm. now rewrite app_nil_r.
Qed.

Lemma Sort_length l : List.length (Sort.Sort less l) = List.length l.
Proof. symmetry. apply Permutation_length, Sort_perm. Qed.

Lemma Sort_In l x : In x (Sort.Sort less l) <-> In x l.
Proof.
  split; apply Permutation_in; [ symmetry | ]; apply Sort_perm.
Qed.

Lemma Sort_nil : Sort.Sort less [] = [].
Proof. reflexivity. Qed.

Lemma Sort_not_nil l : l <> [] -> Sort.Sort less l <> [].
Proof.
  intros H E. apply H. apply length_zero_iff_nil.
  rewrite <- Sort_length, E. reflexivity.
Qed.

Hypothesis less_asym : forall a b, less a b = true -> less b a = false.

Lemma sink_HdRel y x r :
  notBefore y x -> HdRel notBefore y r -> HdRel notBefore y (Sort.sink less x r).
Proof.
  intros Hyx Hr. destruct r as [ | z r ]; simpl; [ now constructor | ].
  destruct (less x z); constructor; [ now apply HdRel_inv in Hr | exact Hyx ].
Qed.

Lemma sink_sorted x before :
  Sorted notBefore before -> Sorted notBefore (Sort.sink less x before).
Proof.
  induction 1 as [ | y r Hs IH Hhd ]; simpl.
  - repeat constructor.
  - destruct (less x y) eqn:E.
    + constructor; [ exact IH | ]. apply sink_HdRel; [ | exact Hhd ].
      apply less_asym, E.
    + constructor; [ now constructor | now constructor ].
Qed.

Lemma fold_sink_sorted l before :
  Sorted notBefore before ->
  Sorted notBefore (fold_left (fun b x => Sort.sink less x b) l before).
Proof.
  revert before. induction l as [ | x r IH ]; intros before Hb; simpl; [ exact Hb | ].
  apply IH, sink_sorted, Hb.
Qed.

(** After [sort.Sort] no element is less than the one before it. *)
Lemma Sort_sorted l : Sorted notAfter (Sort.Sort less l).
Proof.
  unfold Sort.Sort, Sort.insertionSort.
  apply (Sorted_rev notBefore). apply fold_sink_sorted. constructor.
Qed.

(** A slice in which no element is less than the one before it is left as
    it is. *)
Lemma fold_sink_fixed l before :
  Sorted notAfter l ->
  (forall x y, hd_error l = Some x -> hd_error before = Some y -> less x y = false) ->
  fold_left (fun b x => Sort.sink less x b) l before = rev l ++ before.
Proof.
  revert before. induction l as [ | x r IH ]; intros before Hs Hhd; simpl; [ reflexivity | ].
  assert (E : Sort.sink less x before = x :: before).
  { destruct before as [ | y b ]; simpl; [ reflexivity | ].
    now rewrite (Hhd x y eq_refl eq_refl). }
  rewrite E. inversion Hs as [ | ? ? Hs' Hhd' ]; subst.
  rewrite IH; [ now rewrite <- app_assoc | exact Hs' | ].
  intros x' y' Hx' Hy'. simpl in Hy'. injection Hy' as <-.
  destruct r as [ | z r ]; [ discriminate | ]. simpl in Hx'. injection Hx' as <-.
  now apply HdRel_inv in Hhd'.
Qed.

Lemma Sort_fixed l : Sorted notAfter l -> Sort.Sort less l = l.
Proof.
  intros Hs. unfold Sort.Sort, Sort.insertionSort.
  rewrite fold_sink_fixed; [ | exact Hs | intros ? ? _ [=] ].
  now rewrite app_nil_r, rev_involutive.
Qed.

Lemma Sort_idempotent l : Sort.Sort less (Sort.Sort less l) = Sort.Sort less l.
Proof. apply Sort_fixed, Sort_sorted. Qed.

End Facts.

(** Sorting commutes with a change of the elements that keeps the order. *)
Section Map.
Context {A B : Type}.
Variable lessA : A -> A -> bool.
Variable lessB : B -> B -> bool.
Variable f : A -> B.
Hypothesis less_f : forall a b, lessB (f a) (f b) = lessA a b.

Lemma sink_map x before :
  Sort.sink lessB (f x) (map f before) = map f (Sort.sink lessA x before).
Proof.
  induction before as [ | y r IH ]; simpl; [ reflexivity | ].
  rewrite less_f. destruct (lessA x y); simpl; [ now rewrite IH | reflexivity ].
Qed.

Lemma fold_sink_map l before :
  fold_left (fun b x => Sort.sink lessB x b) (map f l) (map f before)
  = map f (fold_left (fun b x => Sort.sink lessA x b) l before).
Proof.
  revert before. induction l as [ | x r IH ]; intros before; simpl; [ reflexivity | ].
  now rewrite sink_map, IH.
Qed.

Lemma Sort_map l : Sort.Sort lessB (map f l) = map f (Sort.Sort lessA l).
Proof.
  unfold Sort.Sort, Sort.insertionSort.
  rewrite map_rev. f_equal. apply (fold_sink_map l []).
Qed.

End Map.

End SortFacts.

(* ================================================================= *)
(** ** Facts on maps keyed by float64 *)

Module FloatMapFacts.

Lemma find_append {A : Type} (p : A -> bool) l1 l2 :
  find p (l1 ++ l2) = match find p l1 with Some x => Some x | None => find p l2 end.
Proof.
  induction l1 as [ | a r IH ]; simpl; [ reflexivity | ]. now destruct (p a).
Qed.

Section Facts.
Context {V : Type}.

Lemma lookup_store (k q : float64) (v : V) m :
  FloatMap.lookup q (FloatMap.store k v m)
  = if F64.eq k q then Some v else FloatMap.lookup q m.
Proof.
  induction m as [ | [k' v'] r IH ]; simpl; [ reflexivity | ].
  destruct (F64.eq k' k) eqn:Ek; simpl.
  - destruct (F64.eq k q) eqn:Eq; [ reflexivity | ].
    now rewrite (F64Facts.eq_eq_l _ _ q Ek), Eq.
  - rewrite IH. destruct (F64.eq k' q) eqn:E'; [ | reflexivity ].
    destruct (F64.eq k q) eqn:Eq; [ | reflexivity ].
    rewrite F64Facts.eq_symmetric in Eq.
    now rewrite (F64Facts.eq_transitive _ _ _ E' Eq) in Ek.
Qed.

Variable key : V -> float64.

(** A map filled from a list holds, for a key, the last element with it. *)
Lemma lookup_filled q l m0 :
  FloatMap.lookup q (fold_left (fun vm x => FloatMap.store (key x) x vm) l m0)
  = match find (fun x => F64.eq (key x) q) (rev l) with
    | Some x => Some x
    | None => FloatMap.lookup q m0
    end.
Proof.
  revert m0. induction l as [ | x r IH ]; intros m0; simpl; [ reflexivity | ].
  rewrite IH, find_append.
  destruct (find _ (rev r)); [ reflexivity | ]. simpl.
  rewrite lookup_store. now destruct (F64.eq (key x) q).
Qed.

Lemma lookup_filled_None q l :
  FloatMap.lookup q (fold_left (fun vm x => FloatMap.store (key x) x vm) l FloatMap.empty) = None
  <-> Forall (fun x => F64.eq (key x) q = false) l.
Proof.
  rewrite lookup_filled. simpl. split.
  - intros H. apply Forall_forall. intros x Hx.
    destruct (find _ (rev l)) eqn:E; [ discriminate | ].
    apply (find_none _ _ E). now apply in_rev in Hx.
  - intros H. destruct (find _ (rev l)) as [ x | ] eqn:E; [ | reflexivity ].
    apply find_some in E. destruct E as [Hin Hx]. apply in_rev in Hin.
    rewrite Forall_forall in H. now rewrite (H _ Hin) in Hx.
Qed.

Lemma lookup_filled_Some q l x :
  FloatMap.lookup q (fold_left (fun vm x => FloatMap.store (key x) x vm) l FloatMap.empty) = Some x ->
  In x l /\ F64.eq (key x) q = true.
Proof.
  rewrite lookup_filled. simpl. destruct (find _ (rev l)) eqn:E; [ | discriminate ].
  intros [= <-]. apply find_some in E. destruct E as [Hin Hx].
  split; [ now apply in_rev | exact Hx ].
Qed.

(** With pairwise different keys the element found is the only one. *)
Lemma lookup_filled_distinct q l x :
  Says.distinct key l -> In x l -> F64.eq (key x) q = true ->
  FloatMap.lookup q (fold_left (fun vm x => FloatMap.store (key x) x vm) l FloatMap.empty) = Some x.
Proof.
  intros Hd Hin Hx.
  destruct (FloatMap.lookup q _) as [ y | ] eqn:E.
  - apply lookup_filled_Some in E. destruct E as [Hy Hyq].
    f_equal. clear - Hd Hin Hx Hy Hyq.
    induction l as [ | a r IH ]; [ contradiction | ].
    destruct Hd as [Ha Hr]. rewrite Forall_forall in Ha.
    assert (Hxy : F64.eq (key x) (key y) = true).
    { now rewrite (F64Facts.eq_eq_l _ _ (key y) Hx), F64Facts.eq_symmetric. }
    destruct Hin as [ -> | Hin ], Hy as [ <- | Hy ]; auto.
    + now rewrite (Ha _ Hy) in Hxy.
    + rewrite F64Facts.eq_symmetric in Hxy. now rewrite (Ha _ Hin) in Hxy.
  - apply lookup_filled_None in E. rewrite Forall_forall in E.
    now rewrite (E _ Hin) in Hx.
Qed.

End Facts.
End FloatMapFacts.

(* ================================================================= *)
(** ** The four checks of Validate *)

Module Checks.

Section Distinct.
Context {A : Type}.
Variable key : A -> float64.

Lemma distinct_perm l l' :
  Permutation l l' -> Says.distinct key l -> Says.distinct key l'.
Proof.
  induction 1 as [ | x l l' Hp IH | x y l | l l' l'' Hp1 IH1 Hp2 IH2 ]; simpl.
  - trivial.
  - intros [Hx Hl]. split; [ now rewrite <- Hp | now apply IH ].
  - intros [Hy [Hx Hl]]. inversion Hy as [ | ? ? Hyx Hyl ]; subst.
    repeat split; try assumption. constructor; [ | assumption ].
    now rewrite F64Facts.eq_symmetric.
  - auto.
Qed.

Lemma distinct_filter p l : Says.distinct key l -> Says.distinct key (filter p l).
Proof.
  induction l as [ | a r IH ]; simpl; [ trivial | ].
  intros [Ha Hr]. destruct (p a); simpl; [ | now apply IH ].
  split; [ | now apply IH ].
  rewrite Forall_forall in *. intros b Hb. apply Ha.
  now apply filter_In in Hb.
Qed.

Lemma distinct_In_eq l x y :
  Says.distinct key l -> In x l -> In y l -> F64.eq (key x) (key y) = true -> x = y.
Proof.
  induction l as [ | a r IH ]; [ contradiction | ].
  intros [Ha Hr] Hx Hy E. rewrite Forall_forall in Ha.
  destruct Hx as [ -> | Hx ], Hy as [ <- | Hy ]; auto.
  - now rewrite (Ha _ Hy) in E.
  - rewrite F64Facts.eq_symmetric in E. now rewrite (Ha _ Hx) in E.
Qed.

End Distinct.

(** *** isInvalidVersion *)

Lemma isInvalidVersion_found l v :
  isInvalidVersion l = (v, true) -> Says.illegal l v.
Proof.
  induction l as [ | m r IH ]; simpl; [ discriminate | ].
  destruct (F64.lt (Version m) F64.zero) eqn:E.
  - intros [= <-]. exists m. repeat split; [ now left | exact E ].
  - intros H. destruct (IH H) as [m' [Hin Hm']]. exists m'. split; [ now right | exact Hm' ].
Qed.

Lemma isInvalidVersion_none l :
  snd (isInvalidVersion l) = false -> forall v, ~ Says.illegal l v.
Proof.
  induction l as [ | m r IH ]; simpl.
  - intros _ v [m' [[] _]].
  - destruct (F64.lt (Version m) F64.zero) eqn:E; [ discriminate | ].
    intros H v [m' [[ <- | Hin ] [Hv Hlt]]].
    + subst v. congruence.
    + apply (IH H v). exists m'. simpl; auto.
Qed.

(** *** isDuplicated *)

Lemma migrationMap_snoc seen m :
  migrationMap (seen ++ [m]) = FloatMap.store (Version m) m (migrationMap seen).
Proof. unfold migrationMap. now rewrite fold_left_app. Qed.

Lemma isDuplicatedFrom_found seen l v :
  isDuplicatedFrom (migrationMap seen) l = (v, true) -> Says.duplicate (seen ++ l) v.
Proof.
  revert seen. induction l as [ | m r IH ]; intros seen; simpl; [ discriminate | ].
  destruct (FloatMap.lookup (Version m) (migrationMap seen)) as [ m1 | ] eqn:E.
  - intros [= <-].
    apply (FloatMapFacts.lookup_filled_Some Version) in E. destruct E as [Hin Heq].
    apply in_split in Hin. destruct Hin as [s1 [s2 ->]].
    exists m1, m, (s1 ++ s2 ++ r). repeat split; [ | exact Heq ].
    rewrite <- app_assoc. simpl.
    rewrite <- Permutation_middle. constructor.
    rewrite (app_assoc s1 s2 r), (app_assoc s1 s2 (m :: r)).
    symmetry. apply Permutation_middle.
  - intros H. rewrite <- migrationMap_snoc in H. apply IH in H.
    now rewrite <- app_assoc in H.
Qed.

Lemma isDuplicated_found l v : isDuplicated l = (v, true) -> Says.duplicate l v.
Proof. apply (isDuplicatedFrom_found []). Qed.

Lemma isDuplicatedFrom_none seen l :
  snd (isDuplicatedFrom (migrationMap seen) l) = false ->
  Says.distinct Version seen -> Says.distinct Version (seen ++ l).
Proof.
  revert seen. induction l as [ | m r IH ]; intros seen; simpl.
  - now rewrite app_nil_r.
  - destruct (FloatMap.lookup (Version m) (migrationMap seen)) eqn:E; [ discriminate | ].
    intros H Hseen. rewrite <- migrationMap_snoc in H.
    replace (seen ++ m :: r) with ((seen ++ [m]) ++ r) by now rewrite <- app_assoc.
    apply IH; [ exact H | ].
    apply (distinct_perm Version (m :: seen)); [ apply Permutation_cons_append | ].
    split; [ | exact Hseen ].
    apply (FloatMapFacts.lookup_filled_None Version) in E.
    rewrite Forall_forall in *. intros b Hb. rewrite F64Facts.eq_symmetric. now apply E.
Qed.

Lemma isDuplicated_none l :
  snd (isDuplicated l) = false -> Says.distinct Version l.
Proof. intros H. now apply (isDuplicatedFrom_none [] l H). Qed.

Lemma duplicate_not_distinct l v : Says.duplicate l v -> ~ Says.distinct Version l.
Proof.
  intros [m1 [m2 [rest [Hp [E _]]]]] Hd.
  apply (distinct_perm Version _ _ Hp) in Hd. destruct Hd as [H1 _].
  inversion H1; subst. congruence.
Qed.

Lemma isDuplicated_distinct l :
  Says.distinct Version l -> snd (isDuplicated l) = false.
Proof.
  intros Hd. destruct (isDuplicated l) as [v [ | ]] eqn:E; [ | reflexivity ].
  now apply isDuplicated_found, duplicate_not_distinct in E.
Qed.

(** *** wasRemovedMigration *)

Lemma wasRemoved_found applied ms v :
  wasRemovedMigration applied ms = (v, true) -> Says.removed applied ms v.
Proof.
  unfold wasRemovedMigration.
  induction applied as [ | r rest IH ]; simpl; [ discriminate | ].
  destruct (FloatMap.lookup (MigrationRecord.Version r) (migrationMap ms)) eqn:E.
  - intros H. destruct (IH H) as [r' [Hin Hr']]. exists r'. simpl; auto.
  - intros [= <-]. exists r. repeat split; [ now left | ].
    now apply (FloatMapFacts.lookup_filled_None Version) in E.
Qed.

Lemma wasRemoved_none applied ms :
  snd (wasRemovedMigration applied ms) = false -> forall v, ~ Says.removed applied ms v.
Proof.
  unfold wasRemovedMigration.
  induction applied as [ | r rest IH ]; simpl.
  - intros _ v [r' [[] _]].
  - destruct (FloatMap.lookup (MigrationRecord.Version r) (migrationMap ms)) eqn:E;
      [ | discriminate ].
    intros H v [r' [[ <- | Hin ] [Hv Hnone]]].
    + subst v. apply (FloatMapFacts.lookup_filled_None Version) in Hnone.
      unfold migrationMap in E. congruence.
    + apply (IH H v). exists r'. simpl; auto.
Qed.

Lemma wasRemoved_matched applied ms :
  snd (wasRemovedMigration applied ms) = false ->
  Forall (fun r => exists m, In m ms /\ F64.eq (Version m) (MigrationRecord.Version r) = true)
         applied.
Proof.
  unfold wasRemovedMigration.
  induction applied as [ | r rest IH ]; simpl; [ constructor | ].
  destruct (FloatMap.lookup (MigrationRecord.Version r) (migrationMap ms)) eqn:E;
    [ | discriminate ].
  intros H. constructor; [ | now apply IH ].
  apply (FloatMapFacts.lookup_filled_Some Version) in E. now exists m.
Qed.

Lemma wasRemoved_matched_none applied ms :
  Forall (fun r => exists m, In m ms /\ F64.eq (Version m) (MigrationRecord.Version r) = true)
         applied ->
  snd (wasRemovedMigration applied ms) = false.
Proof.
  unfold wasRemovedMigration.
  induction 1 as [ | r rest [m [Hin Hm]] Hrest IH ]; simpl; [ reflexivity | ].
  destruct (FloatMap.lookup (MigrationRecord.Version r) (migrationMap ms)) eqn:E;
    [ exact IH | ].
  apply (FloatMapFacts.lookup_filled_None Version) in E.
  rewrite Forall_forall in E. now rewrite (E _ Hin) in Hm.
Qed.

(** *** isInvalidChecksumMigration *)

Lemma isInvalidChecksum_found applied ms v :
  isInvalidChecksumMigration applied ms = (v, true) -> Says.drifted applied ms v.
Proof.
  unfold isInvalidChecksumMigration.
  induction ms as [ | m rest IH ]; simpl; [ discriminate | ].
  assert (Hrest : isInvalidChecksumFrom (recordMap applied) rest = (v, true) ->
                  Says.drifted applied (m :: rest) v).
  { intros H. destruct (IH H) as [r [m' [Hr [Hm' H']]]]. exists r, m'. simpl. auto. }
  destruct (FloatMap.lookup (Version m) (recordMap applied)) as [ r | ] eqn:E; [ | exact Hrest ].
  destruct (String.eqb (MigrationRecord.Checksum r) (Checksum m)) eqn:Ec; [ exact Hrest | ].
  intros [= <-].
  apply (FloatMapFacts.lookup_filled_Some MigrationRecord.Version) in E.
  destruct E as [Hin Heq]. apply String.eqb_neq in Ec.
  exists r, m. simpl. auto.
Qed.

(** What a passed check says of each migration: the record the map holds
    for its version, if any, carries its checksum. *)
Lemma isInvalidChecksum_passed applied ms :
  snd (isInvalidChecksumMigration applied ms) = false <->
  Forall (fun m => forall r, FloatMap.lookup (Version m) (recordMap applied) = Some r ->
                             MigrationRecord.Checksum r = Checksum m) ms.
Proof.
  unfold isInvalidChecksumMigration.
  induction ms as [ | m rest IH ]; simpl; [ split; auto | ].
  destruct (FloatMap.lookup (Version m) (recordMap applied)) as [ r | ] eqn:E.
  - destruct (String.eqb (MigrationRecord.Checksum r) (Checksum m)) eqn:Ec.
    + apply String.eqb_eq in Ec. rewrite IH. split.
      * intros H. constructor; [ | exact H ]. intros r' Hr'. congruence.
      * intros H. now inversion H.
    + apply String.eqb_neq in Ec. simpl. split; [ discriminate | ].
      intros H. inversion H as [ | ? ? Hm _ ]; subst. now specialize (Hm r E).
  - rewrite IH. split.
    + intros H. constructor; [ intros r' Hr'; congruence | exact H ].
    + intros H. now inversion H.
Qed.

Lemma isInvalidChecksum_none applied ms :
  Says.distinct MigrationRecord.Version applied ->
  snd (isInvalidChecksumMigration applied ms) = false ->
  forall v, ~ Says.drifted applied ms v.
Proof.
  intros Hd H v [r [m [Hr [Hm [Heq [Hne _]]]]]].
  apply isInvalidChecksum_passed in H. rewrite Forall_forall in H.
  apply Hne, (H m Hm).
  now apply (FloatMapFacts.lookup_filled_distinct MigrationRecord.Version).
Qed.

End Checks.

(* ================================================================= *)
(** ** Validate *)

Lemma byMigrationVersion_asym a b :
  byMigrationVersion a b = true -> byMigrationVersion b a = false.
Proof. apply F64Facts.lt_asym. Qed.

Lemma byMigrationRecordVersion_asym a b :
  Sort.Reverse byMigrationRecordVersion a b = true ->
  Sort.Reverse byMigrationRecordVersion b a = false.
Proof. apply F64Facts.lt_asym. Qed.

Module Transport.

(** The properties of section 4.2 do not depend on the order of the
    migrations. *)
Lemma illegal_perm l l' v : Permutation l l' -> Says.illegal l v -> Says.illegal l' v.
Proof.
  intros Hp [m [Hin H]]. exists m. split; [ | exact H ].
  now apply (Permutation_in _ Hp).
Qed.

Lemma duplicate_perm l l' v : Permutation l l' -> Says.duplicate l v -> Says.duplicate l' v.
Proof.
  intros Hp [m1 [m2 [rest [Hq H]]]]. exists m1, m2, rest. split; [ | exact H ].
  now rewrite <- Hp.
Qed.

Lemma removed_perm applied l l' v :
  Permutation l l' -> Says.removed applied l v -> Says.removed applied l' v.
Proof.
  intros Hp [r [Hin [Hv H]]]. exists r. repeat split; try assumption.
  now rewrite <- Hp.
Qed.

Lemma drifted_perm applied l l' v :
  Permutation l l' -> Says.drifted applied l v -> Says.drifted applied l' v.
Proof.
  intros Hp [r [m [Hr [Hm H]]]]. exists r, m. repeat split; try tauto.
  now apply (Permutation_in _ Hp).
Qed.

End Transport.

Section ValidateFacts.
Context {D : Type} {drv : Driver D}.

Lemma Validate_slice (w : world D) ms :
  snd (fst (Validate w ms)) = Sort.Sort byMigrationVersion ms.
Proof.
  unfold Validate, callAll.
  destruct (isInvalidVersion _) as [? [ | ]]; [ reflexivity | ].
  destruct (isDuplicated _) as [? [ | ]]; [ reflexivity | ].
  destruct (All (driver w)) as [[applied [e | ]] d]; [ reflexivity | ].
  destruct (wasRemovedMigration _ _) as [? [ | ]]; [ reflexivity | ].
  destruct (isInvalidChecksumMigration _ _) as [? [ | ]]; reflexivity.
Qed.

(** What a successful [Validate] has checked. *)
Lemma Validate_passed (w : world D) ms :
  fst (fst (Validate w ms)) = None ->
  let sorted := Sort.Sort byMigrationVersion ms in
  snd (isInvalidVersion sorted) = false /\
  snd (isDuplicated sorted) = false /\
  snd (fst (All (driver w))) = None /\
  snd (wasRemovedMigration (fst (fst (All (driver w)))) sorted) = false /\
  snd (isInvalidChecksumMigration (fst (fst (All (driver w)))) sorted) = false /\
  snd (Validate w ms) = snd (callAll w).
Proof.
  unfold Validate, callAll. cbv zeta.
  destruct (isInvalidVersion _) as [? [ | ]]; [ discriminate | ].
  destruct (isDuplicated _) as [? [ | ]]; [ discriminate | ].
  destruct (All (driver w)) as [[applied [e | ]] d]; [ discriminate | ]. cbn [fst snd].
  destruct (wasRemovedMigration _ _) as [? [ | ]]; [ discriminate | ].
  destruct (isInvalidChecksumMigration _ _) as [? [ | ]]; [ discriminate | ].
  intros _. repeat split; reflexivity.
Qed.

Lemma Validate_passes (w : world D) ms :
  let sorted := Sort.Sort byMigrationVersion ms in
  snd (isInvalidVersion sorted) = false ->
  snd (isDuplicated sorted) = false ->
  snd (fst (All (driver w))) = None ->
  snd (wasRemovedMigration (fst (fst (All (driver w)))) sorted) = false ->
  snd (isInvalidChecksumMigration (fst (fst (All (driver w)))) sorted) = false ->
  Validate w ms = ((None, sorted), snd (callAll w)).
Proof.
  unfold Validate, callAll. cbv zeta.
  destruct (isInvalidVersion _) as [? [ | ]]; [ discriminate | ].
  destruct (isDuplicated _) as [? [ | ]]; [ discriminate | ].
  destruct (All (driver w)) as [[applied [e | ]] d]; [ discriminate | ]. cbn [fst snd].
  destruct (wasRemovedMigration _ _) as [? [ | ]]; [ discriminate | ].
  destruct (isInvalidChecksumMigration _ _) as [? [ | ]]; [ discriminate | ].
  reflexivity.
Qed.

(** C5.  [Validate] runs its checks in the order of section 4.2 and stops at
    the first that fails: a version below zero gives
    [IllegalMigrationVersionError]; otherwise two migrations sharing a
    version give [DuplicateMigrationVersionError]; otherwise the history is
    fetched, and a record with no migration of its version gives
    [RemovedMigrationError]; otherwise a record whose checksum differs from
    that of the migration of its version gives [InvalidChecksumError];
    otherwise [Validate] succeeds.  The error carries an offending version.
    The history holds one record per version, as the bookkeeping table
    declares ([UNIQUE (version)]).  The driver is not called before the
    first two checks have passed. *)
Theorem Validate_checks_in_order (w : world D) (migrations : list Migration) :
  Says.distinct MigrationRecord.Version (fst (fst (All (driver w)))) ->
  exists fetched,
    Says.Validate migrations (fst (All (driver w))) fetched
                  (fst (fst (Validate w migrations))) /\
    snd (Validate w migrations) = (if fetched then snd (callAll w) else w).
Proof.
  intros Hrecords.
  pose proof (SortFacts.Sort_perm byMigrationVersion migrations) as Hp.
  assert (Hq : Permutation (Sort.Sort byMigrationVersion migrations) migrations)
    by now symmetry.
  unfold Validate, callAll.
  destruct (isInvalidVersion _) as [v1 [ | ]] eqn:E1.
  { exists false. split; [ | reflexivity ]. cbn [fst snd]. apply Says.IllegalVersion.
    eapply Transport.illegal_perm; [ exact Hq | ]. now apply Checks.isInvalidVersion_found. }
  assert (H1 : forall u, ~ Says.illegal migrations u).
  { intros u Hu. apply (Transport.illegal_perm _ _ _ Hp) in Hu. revert Hu.
    apply Checks.isInvalidVersion_none. now rewrite E1. }
  destruct (isDuplicated _) as [v2 [ | ]] eqn:E2.
  { exists false. split; [ | reflexivity ]. cbn [fst snd].
    apply Says.DuplicateVersion; [ exact H1 | ].
    eapply Transport.duplicate_perm; [ exact Hq | ]. now apply Checks.isDuplicated_found. }
  assert (H2 : forall u, ~ Says.duplicate migrations u).
  { intros u Hu. apply (Transport.duplicate_perm _ _ _ Hp) in Hu.
    apply (Checks.duplicate_not_distinct _ _ Hu).
    apply Checks.isDuplicated_none. now rewrite E2. }
  exists true.
  destruct (All (driver w)) as [[applied [e | ]] d]; cbn [fst snd] in *.
  { split; [ | reflexivity ]. now apply Says.FetchFailed. }
  destruct (wasRemovedMigration _ _) as [v3 [ | ]] eqn:E3.
  { split; [ | reflexivity ]. cbn [fst snd].
    apply Says.RemovedMigration; try assumption; try reflexivity.
    eapply Transport.removed_perm; [ exact Hq | ]. now apply Checks.wasRemoved_found. }
  assert (H3 : forall u, ~ Says.removed applied migrations u).
  { intros u Hu. apply (Transport.removed_perm _ _ _ _ Hp) in Hu. revert Hu.
    apply Checks.wasRemoved_none. now rewrite E3. }
  destruct (isInvalidChecksumMigration _ _) as [v4 [ | ]] eqn:E4.
  { split; [ | reflexivity ]. cbn [fst snd].
    apply Says.ChecksumDrift; try assumption; try reflexivity.
    eapply Transport.drifted_perm; [ exact Hq | ]. now apply Checks.isInvalidChecksum_found. }
  split; [ | reflexivity ]. cbn [fst snd].
  apply Says.Valid; try assumption; try reflexivity.
  intros u Hu. apply (Transport.drifted_perm _ _ _ _ Hp) in Hu.
  exact (Checks.isInvalidChecksum_none applied _ Hrecords (f_equal snd E4) u Hu).
Qed.

End ValidateFacts.

(* ================================================================= *)
(** ** Validate and Migrate sort the caller's slice *)

Section SliceFacts.
Context {D : Type} {drv : Driver D}.
Variable timeNow : nat -> Time.



End SliceFacts.

(* ================================================================= *)
(** ** Info on an empty history *)

Section InfoFacts.
Context {D : Type} {drv : Driver D}.

Lemma infoOf_nil_panics ms :
  ms <> [] -> infoOf [] ms = Panics (IndexOutOfRange 0 0).
Proof. destruct ms; [ congruence | reflexivity ]. Qed.

(** C1 (what the code does).  With no applied record, [Info] does not
    report [Pending]: for every migration list that is not empty,
    [getStatus] reads [inDatabase[0]] of an empty slice and panics. *)
Theorem Info_panics_on_empty_history (w : world D) (migrations : list Migration) :
  fst (All (driver w)) = ([], None) ->
  migrations <> [] ->
  fst (Info w migrations) = Panics (IndexOutOfRange 0 0).
Proof.
  intros Hall Hms. unfold Info, callAll.
  destruct (All (driver w)) as [[records err] d]. cbn [fst] in Hall.
  injection Hall as -> ->. cbn [fst snd].
  rewrite SortFacts.Sort_nil, infoOf_nil_panics by exact Hms. reflexivity.
Qed.

End InfoFacts.

(* ================================================================= *)
(** ** A changed script is detected *)

Module Rescript.

Section Facts.
Variable v : float64.
Variable script : string.

Lemma Version_rescript x : Version (rescript v script x) = Version x.
Proof. unfold rescript. now destruct (F64.eq (Version x) v). Qed.

Lemma less_rescript a b :
  byMigrationVersion (rescript v script a) (rescript v script b) = byMigrationVersion a b.
Proof. unfold byMigrationVersion. now rewrite !Version_rescript. Qed.

Lemma Sort_rescript l :
  Sort.Sort byMigrationVersion (map (rescript v script) l)
  = map (rescript v script) (Sort.Sort byMigrationVersion l).
Proof. apply SortFacts.Sort_map, less_rescript. Qed.

Lemma isInvalidVersion_rescript l :
  isInvalidVersion (map (rescript v script) l) = isInvalidVersion l.
Proof.
  induction l as [ | x r IH ]; simpl; [ reflexivity | ].
  rewrite Version_rescript, IH. reflexivity.
Qed.

Lemma distinct_rescript l :
  Says.distinct Version l -> Says.distinct Version (map (rescript v script) l).
Proof.
  induction l as [ | x r IH ]; simpl; [ trivial | ].
  intros [Hx Hr]. split; [ | now apply IH ].
  rewrite Forall_map. rewrite Forall_forall in *. intros b Hb.
  rewrite !Version_rescript. now apply Hx.
Qed.

Lemma matched_rescript applied l :
  Forall (fun r => exists m, In m l /\ F64.eq (Version m) (MigrationRecord.Version r) = true)
         applied ->
  Forall (fun r => exists m, In m (map (rescript v script) l) /\
                             F64.eq (Version m) (MigrationRecord.Version r) = true)
         applied.
Proof.
  apply Forall_impl. intros r [m [Hin Hm]].
  exists (rescript v script m). split; [ now apply in_map | ].
  now rewrite Version_rescript.
Qed.

End Facts.

(** The loop of [isInvalidChecksumMigration] stops at the changed
    migration. *)
Lemma isInvalidChecksumFrom_rescript vm m script r l :
  Forall (fun x => forall r', FloatMap.lookup (Version x) vm = Some r' ->
                              MigrationRecord.Checksum r' = Checksum x) l ->
  Says.distinct Version l ->
  In m l ->
  FloatMap.lookup (Version m) vm = Some r ->
  F64.isNaN (Version m) = false ->
  MigrationRecord.Checksum r <> MD5.hexSum script ->
  isInvalidChecksumFrom vm (map (rescript (Version m) script) l) = (Version m, true).
Proof.
  intros Hpass Hd Hm Hr Hnum Hne.
  induction l as [ | x rest IH ]; [ contradiction | ].
  inversion Hpass as [ | ? ? Hx Hrest ]; subst.
  cbn [map isInvalidChecksumFrom]. rewrite Version_rescript.
  destruct (F64.eq (Version x) (Version m)) eqn:E.
  - assert (x = m) as -> by (apply (Checks.distinct_In_eq Version (x :: rest)); simpl; auto).
    rewrite Hr. unfold rescript. rewrite E.
    unfold Checksum. cbn [withScript Script].
    destruct (String.eqb (MigrationRecord.Checksum r) (MD5.hexSum script)) eqn:Ec;
      [ now apply String.eqb_eq in Ec | reflexivity ].
  - destruct Hm as [ -> | Hm ]; [ now rewrite (F64Facts.eq_reflexive _ Hnum) in E | ].
    destruct Hd as [_ Hd]. specialize (IH Hrest Hd Hm).
    unfold rescript at 1. rewrite E.
    destruct (FloatMap.lookup (Version x) vm) as [ r' | ] eqn:Ex; [ | exact IH ].
    rewrite (Hx r' eq_refl), String.eqb_refl. exact IH.
Qed.

End Rescript.

Section ChecksumFacts.
Context {D : Type} {drv : Driver D}.
Variable timeNow : nat -> Time.

(** C6.  Take a migration set and a history that [Validate] accepts, and a
    migration [m] of the set that was applied and recorded.  Change the
    script of [m], its version kept, so that the checksum computed afresh
    (the MD5 of the new script) differs from the recorded one: the next
    [Validate] returns [InvalidChecksumError] for the version of [m], and
    so does the next [Migrate], which calls [Validate] once [Create] has
    succeeded. *)
Theorem changed_script_is_detected (w : world D) (migrations : list Migration)
  (m : Migration) (script : string) :
  let applied := fst (fst (All (driver w))) in
  let changed := map (rescript (Version m) script) migrations in
  fst (fst (Validate w migrations)) = None ->
  In m migrations ->
  (exists r, In r applied /\ F64.eq (MigrationRecord.Version r) (Version m) = true) ->
  (forall r, In r applied -> F64.eq (MigrationRecord.Version r) (Version m) = true ->
             MigrationRecord.Checksum r <> MD5.hexSum script) ->
  fst (fst (Validate w changed)) = Some (InvalidChecksumError (Version m)) /\
  forall w0, callCreate w0 = (None, w) ->
    fst (fst (Migrate timeNow w0 changed)) = Some (InvalidChecksumError (Version m)).
Proof.
  intros applied changed Hok Hm [r0 [Hr0 Er0]] Hnew.
  assert (Hv : fst (fst (Validate w changed)) = Some (InvalidChecksumError (Version m))).
  { apply Validate_passed in Hok. cbv zeta in Hok.
    destruct Hok as [H1 [H2 [H3 [H4 [H5 _]]]]].
    fold applied in H4, H5.
    set (sorted := Sort.Sort byMigrationVersion migrations) in *.
    assert (Hms : In m sorted) by now apply SortFacts.Sort_In.
    assert (Hnum : F64.isNaN (Version m) = false) by now apply F64Facts.eq_number_r in Er0.
    apply Checks.isDuplicated_none in H2.
    apply Checks.isInvalidChecksum_passed in H5.
    destruct (FloatMap.lookup (Version m) (recordMap applied)) as [ r | ] eqn:Er.
    2:{ apply (FloatMapFacts.lookup_filled_None MigrationRecord.Version) in Er.
        rewrite Forall_forall in Er. now rewrite (Er _ Hr0) in Er0. }
    pose proof (FloatMapFacts.lookup_filled_Some MigrationRecord.Version _ _ _ Er) as [Hr Ev].
    unfold Validate, callAll, changed.
    rewrite Rescript.Sort_rescript, Rescript.isInvalidVersion_rescript.
    fold sorted. destruct (isInvalidVersion sorted) as [? [ | ]]; [ discriminate | ].
    rewrite (surjective_pairing (isDuplicated _)).
    rewrite (Checks.isDuplicated_distinct _ (Rescript.distinct_rescript _ _ _ H2)).
    destruct (All (driver w)) as [[applied' err] d]. cbn [fst snd] in *.
    subst applied. subst err.
    rewrite (surjective_pairing (wasRemovedMigration _ _)).
    rewrite (Checks.wasRemoved_matched_none _ _
               (Rescript.matched_rescript _ _ _ _ (Checks.wasRemoved_matched _ _ H4))).
    unfold isInvalidChecksumMigration.
    rewrite (Rescript.isInvalidChecksumFrom_rescript _ m script r sorted); auto. }
  split; [ exact Hv | ].
  intros w0 Hc. unfold Migrate. rewrite Hc.
  destruct (Validate w changed) as [[[e | ] ms'] w']; cbn [fst snd] in *; [ exact Hv | discriminate ].
Qed.

End ChecksumFacts.

(* ================================================================= *)
(** ** The loop of Migrate *)

Section LoopFacts.
Context {D : Type} {drv : Driver D}.
Variable timeNow : nat -> Time.

Lemma applyPlanned_app pre rest (w : world D) :
  applyPlanned timeNow (pre ++ rest) w
  = match applyPlanned timeNow pre w with
    | (None, w1) => applyPlanned timeNow rest w1
    | (Some e, w1) => (Some e, w1)
    end.
Proof.
  revert w. induction pre as [ | m pre IH ]; intros w; simpl; [ reflexivity | ].
  destruct (callExec (Script m) w) as [[dur [e | ]] w1]; [ reflexivity | ].
  destruct (callInsert _ _) as [[e | ] w3]; [ reflexivity | ].
  apply IH.
Qed.

(** A run of the loop that returns no error has executed and recorded every
    planned migration, in order, and has called the driver for nothing
    else. *)
Lemma applyPlanned_done planned (w w1 : world D) :
  applyPlanned timeNow planned w = (None, w1) ->
  exists records,
    Forall2 recordOf planned records /\
    calls w1 = calls w ++ appliedCalls planned records.
Proof.
  revert w. induction planned as [ | m rest IH ]; intros w; simpl.
  - intros [= <-]. exists []. split; [ constructor | now rewrite app_nil_r ].
  - unfold callExec, now, callInsert.
    destruct (Exec (Script m) (driver w)) as [[dur [e | ]] d1]; [ discriminate | ].
    cbn [driver calls ticks].
    destruct (Insert _ d1) as [[e | ] d2] eqn:Ei; [ discriminate | ].
    intros H. apply IH in H. destruct H as [records [Hrec Hcalls]].
    cbn [calls] in Hcalls.
    exists (MigrationRecord.mk (Version m) (Description m) (Checksum m)
                               (timeNow (ticks w)) dur :: records).
    split.
    + constructor; [ now repeat split | exact Hrec ].
    + rewrite Hcalls. unfold appliedCalls. simpl.
      rewrite <- !app_assoc. reflexivity.
Qed.

(** C4.  Let the script of the N-th planned migration fail during
    [Migrate]: [Create], [Validate] and the planning succeeded, the planned
    migrations before the N-th were executed and recorded, and [Exec]
    answers the script of the N-th with an error.  Then [Migrate] returns
    that error at once.  The calls it made on the driver since the plan are
    an [Exec] and an [Insert] for each migration before the N-th, and the
    failed [Exec]: the records inserted stay (nothing is called that would
    remove one), no record is inserted for the N-th migration, and no
    migration after it is executed or recorded. *)
Theorem Migrate_stops_at_the_failing_script
  (w wc wv wp w1 : world D) (migrations sorted before after : list Migration)
  (failing : Migration) (e : error) :
  callCreate w = (None, wc) ->
  Validate wc migrations = ((None, sorted), wv) ->
  planMigration wv sorted = ((before ++ failing :: after, None), wp) ->
  applyPlanned timeNow before wp = (None, w1) ->
  snd (fst (Exec (Script failing) (driver w1))) = Some e ->
  let result := Migrate timeNow w migrations in
  fst (fst result) = Some e /\
  driver (snd result) = snd (Exec (Script failing) (driver w1)) /\
  exists records,
    Forall2 recordOf before records /\
    calls (snd result)
    = calls wp ++ appliedCalls before records ++ [ExecCalled (Script failing) (Some e)].
Proof.
  intros Hc Hv Hp Hloop Hexec result. subst result.
  unfold Migrate. rewrite Hc, Hv, Hp, applyPlanned_app, Hloop.
  cbn [applyPlanned]. unfold callExec.
  destruct (Exec (Script failing) (driver w1)) as [[dur err] d]. cbn [fst snd] in *.
  subst err. cbn [fst snd driver calls].
  repeat split.
  destruct (applyPlanned_done _ _ _ Hloop) as [records [Hrec Hcalls]].
  exists records. split; [ exact Hrec | ]. now rewrite Hcalls, <- app_assoc.
Qed.

End LoopFacts.

(* ================================================================= *)
(** ** The plan *)

Module Plan.

Lemma numbers_perm l l' : Permutation l l' -> Says.numbers l -> Says.numbers l'.
Proof. intros Hp. unfold Says.numbers. now rewrite Hp. Qed.

Lemma numbers_filter p l : Says.numbers l -> Says.numbers (filter p l).
Proof.
  unfold Says.numbers. rewrite !Forall_forall. intros H x Hx.
  apply filter_In in Hx. now apply H.
Qed.

(** Sorted migrations with pairwise different versions, none of them NaN,
    ascend strictly. *)
Lemma sorted_strictly l :
  Sorted (Sort.notAfter byMigrationVersion) l ->
  Says.numbers l -> Says.distinct Version l -> Says.strictlyAscending l.
Proof.
  intros Hs Hn Hd. apply Sorted_StronglySorted.
  { intros a b c. apply F64Facts.lt_trans. }
  induction Hs as [ | a r Hs IH Hhd ]; [ constructor | ].
  inversion Hn as [ | ? ? Ha Hr ]; subst. destruct Hd as [Hda Hdr].
  constructor; [ now apply IH | ].
  destruct r as [ | b r ]; constructor.
  apply HdRel_inv in Hhd. unfold Sort.notAfter, byMigrationVersion in Hhd.
  inversion Hr as [ | ? ? Hb _ ]; subst. inversion Hda as [ | ? ? Hab _ ]; subst.
  destruct (F64Facts.total _ _ Ha Hb) as [H | [H | H]]; congruence.
Qed.

Lemma Sort_strictly l :
  Says.numbers l -> Says.distinct Version l ->
  Says.strictlyAscending (Sort.Sort byMigrationVersion l).
Proof.
  intros Hn Hd. pose proof (SortFacts.Sort_perm byMigrationVersion l) as Hp.
  apply sorted_strictly.
  - apply SortFacts.Sort_sorted, byMigrationVersion_asym.
  - now apply (numbers_perm l).
  - now apply (Checks.distinct_perm Version l).
Qed.

(** A strictly ascending slice is sorted already. *)
Lemma strictly_sorted l :
  Says.strictlyAscending l -> Sorted (Sort.notAfter byMigrationVersion) l.
Proof.
  intros H. apply StronglySorted_Sorted in H.
  induction H as [ | a r Hs IH Hhd ]; constructor; [ exact IH | ].
  destruct Hhd; constructor. now apply F64Facts.lt_asym.
Qed.

Lemma filter_strictly p l :
  Says.strictlyAscending l -> Says.strictlyAscending (filter p l).
Proof.
  induction 1 as [ | a r Hs IH Hall ]; simpl; [ constructor | ].
  destruct (p a); [ | exact IH ]. constructor; [ exact IH | ].
  rewrite Forall_forall in *. intros x Hx. apply Hall. now apply filter_In in Hx.
Qed.

Section PlanFacts.
Context {D : Type} {drv : Driver D}.

(** The three ways [planMigration] ends. *)
Lemma planMigration_cases (w : world D) ms :
  let history := fst (All (driver w)) in
  snd (planMigration w ms) = snd (callAll w) /\
  match snd history, fst history with
  | Some e, _ => fst (planMigration w ms) = ([], Some e)
  | None, [] => fst (planMigration w ms) = (ms, None)
  | None, first :: rest =>
      let last := hd first (Sort.Sort (Sort.Reverse byMigrationRecordVersion) (first :: rest)) in
      fst (planMigration w ms)
      = (Sort.Sort byMigrationVersion
           (filter (fun m => F64.gt (Version m) (MigrationRecord.Version last)) ms), None)
  end.
Proof.
  unfold planMigration, callAll.
  destruct (All (driver w)) as [[records [e | ]] d]; cbn [fst snd]; [ now split | ].
  destruct records; now split.
Qed.

Lemma planMigration_ascends (w : world D) ms :
  Says.numbers ms -> Says.distinct Version ms ->
  (fst (All (driver w)) = ([], None) -> Says.strictlyAscending ms) ->
  Says.strictlyAscending (fst (fst (planMigration w ms))).
Proof.
  intros Hn Hd Hgiven.
  destruct (planMigration_cases w ms) as [_ H]. cbv zeta in H.
  destruct (fst (All (driver w))) as [records [e | ]]; cbn [fst snd] in H.
  - rewrite H. constructor.
  - destruct records as [ | first rest ]; rewrite H; cbn [fst].
    + now apply Hgiven.
    + apply Sort_strictly; [ now apply numbers_filter | now apply Checks.distinct_filter ].
Qed.



End PlanFacts.

End Plan.

(* ================================================================= *)
(** ** The high-water mark *)

Module Mark.

Local Abbreviation numbered := Says.numbered.

(** Records that each match a migration have numbers for versions. *)
Lemma matched_numbered applied ms :
  Forall (fun r => exists m, In m ms /\ F64.eq (Version m) (MigrationRecord.Version r) = true)
         applied ->
  numbered applied.
Proof.
  apply Forall_impl. intros r [m [_ H]]. now apply F64Facts.eq_number_r in H.
Qed.

(** [records[0]] after the reversed sort is a record of the greatest
    version. *)
Lemma last_is_greatest first rest :
  numbered (first :: rest) ->
  let last := hd first (Sort.Sort (Sort.Reverse byMigrationRecordVersion) (first :: rest)) in
  In last (first :: rest) /\
  forall r, In r (first :: rest) ->
            F64.lt (MigrationRecord.Version last) (MigrationRecord.Version r) = false.
Proof.
  intros Hn last.
  set (less := Sort.Reverse byMigrationRecordVersion) in *.
  pose proof (SortFacts.Sort_perm less (first :: rest)) as Hp.
  pose proof (SortFacts.Sort_sorted less byMigrationRecordVersion_asym (first :: rest)) as Hs.
  assert (Hn' : numbered (Sort.Sort less (first :: rest))) by (unfold numbered; now rewrite <- Hp).
  apply (SortFacts.Sorted_StronglySorted_on _ _ _) with (3 := Hs) in Hn' as Hss.
  2:{ intros a b c Ha Hb Hc. unfold Sort.notAfter, less, Sort.Reverse, byMigrationRecordVersion.
      intros Hab Hbc. now apply (F64Facts.not_lt_trans _ (MigrationRecord.Version b)). }
  subst last. destruct (Sort.Sort less (first :: rest)) as [ | top others ] eqn:E.
  { apply Permutation_sym, Permutation_nil in Hp. discriminate. }
  cbn [hd]. split.
  - apply (Permutation_in _ (Permutation_sym Hp)). now left.
  - intros r Hr. apply (Permutation_in _ Hp) in Hr.
    destruct Hr as [ <- | Hr ]; [ apply F64Facts.lt_irrefl | ].
    inversion Hss as [ | ? ? _ Hall ]; subst. rewrite Forall_forall in Hall.
    apply (Hall r Hr).
Qed.

End Mark.

(* ================================================================= *)
(** ** The planner, as a function of the records *)

Lemma planMigration_planFor {D : Type} {drv : Driver D} (w : world D) ms :
  snd (fst (All (driver w))) = None ->
  planMigration w ms = ((planFor (fst (fst (All (driver w)))) ms, None), snd (callAll w)).
Proof.
  unfold planMigration, callAll, planFor.
  destruct (All (driver w)) as [[records err] d]. cbn [fst snd]. intros ->.
  now destruct records.
Qed.

Lemma planFor_In records ms m : In m (planFor records ms) -> In m ms.
Proof.
  unfold planFor. destruct records; [ trivial | ].
  intros H. apply SortFacts.Sort_In in H. now apply filter_In in H.
Qed.

Lemma recordMap_app_lookup q a b :
  FloatMap.lookup q (recordMap (a ++ b))
  = match FloatMap.lookup q (recordMap b) with
    | Some r => Some r
    | None => FloatMap.lookup q (recordMap a)
    end.
Proof.
  unfold recordMap.
  rewrite !(FloatMapFacts.lookup_filled MigrationRecord.Version).
  rewrite rev_app_distr, FloatMapFacts.find_append. cbn [FloatMap.lookup FloatMap.empty].
  now destruct (find _ (rev b)).
Qed.

Lemma Forall2_recordOf_In planned records r :
  Forall2 recordOf planned records -> In r records ->
  exists m, In m planned /\ recordOf m r.
Proof.
  induction 1 as [ | m r' ps rs Hm Hrest IH ]; [ contradiction | ].
  intros [ <- | Hr ].
  - exists m. split; [ now left | exact Hm ].
  - destruct (IH Hr) as [m' [Hin H']]. exists m'. split; [ now right | exact H' ].
Qed.

Lemma Forall2_recordOf_record planned records m :
  Forall2 recordOf planned records -> In m planned ->
  exists r, In r records /\ recordOf m r.
Proof.
  induction 1 as [ | m' r ps rs Hm Hrest IH ]; [ contradiction | ].
  intros [ <- | Hin ].
  - exists r. split; [ now left | exact Hm ].
  - destruct (IH Hin) as [r' [Hr H']]. exists r'. split; [ now right | exact H' ].
Qed.

(* ================================================================= *)
(** ** Migrate on the driver in memory *)

Section MemoryFacts.
Variable fails : string -> option error.
Variable elapsed : string -> Duration.
Variable timeNow : nat -> Time.

Local Abbreviation drvM := (Memory.driver fails elapsed).

(** A run of the loop that returns no error has appended the records of the
    planned migrations to the table. *)
Lemma applyPlanned_memory planned (w w1 : world Memory.db) :
  applyPlanned (drv := drvM) timeNow planned w = (None, w1) ->
  exists records,
    Forall2 recordOf planned records /\
    Memory.rows (driver w1) = Memory.rows (driver w) ++ records /\
    Memory.tableExists (driver w1) = Memory.tableExists (driver w).
Proof.
  revert w. induction planned as [ | m rest IH ]; intros w; cbn [applyPlanned].
  - intros H. injection H as <-. exists [].
    split; [ constructor | split; [ now rewrite app_nil_r | reflexivity ] ].
  - unfold callExec, now, callInsert.
    cbn [Exec Insert drvM Memory.driver]. unfold Memory.exec, Memory.insert.
    destruct (fails (Script m)) as [ e | ]; cbn [driver calls ticks fst snd]; [ discriminate | ].
    cbn [Memory.rows Memory.tableExists Memory.executed MigrationRecord.Version].
    destruct (Memory.hasVersion (Version m) (Memory.rows (driver w)));
      cbn [driver calls ticks fst snd]; [ discriminate | ].
    intros H. apply IH in H. destruct H as [records [Hrec [Hrows Htable]]].
    cbn [driver Memory.rows Memory.tableExists] in Hrows, Htable.
    exists (MigrationRecord.mk (Version m) (Description m) (Checksum m)
                               (timeNow (ticks w)) (elapsed (Script m)) :: records).
    split; [ constructor; [ now repeat split | exact Hrec ] | ].
    split; [ | exact Htable ].
    rewrite Hrows, <- app_assoc. reflexivity.
Qed.

(** What a successful [Migrate] has done. *)
Lemma Migrate_memory_done (w w1 : world Memory.db) ms sorted :
  Migrate (drv := drvM) timeNow w ms = ((None, sorted), w1) ->
  let rows0 := Memory.rows (driver w) in
  sorted = Sort.Sort byMigrationVersion ms /\
  snd (isInvalidVersion sorted) = false /\
  snd (isDuplicated sorted) = false /\
  snd (wasRemovedMigration rows0 sorted) = false /\
  snd (isInvalidChecksumMigration rows0 sorted) = false /\
  exists records,
    Forall2 recordOf (planFor rows0 sorted) records /\
    Memory.rows (driver w1) = rows0 ++ records /\
    Memory.tableExists (driver w1) = true.
Proof.
  intros H rows0. unfold Migrate in H.
  unfold callCreate in H. cbn [Create drvM Memory.driver Memory.create] in H.
  set (wc := mkWorld _ _ _) in H.
  pose proof (Validate_slice (drv := drvM) wc ms) as Hslice.
  pose proof (Validate_passed (drv := drvM) wc ms) as Hpass.
  destruct (Validate (drv := drvM) wc ms) as [[[e | ] s] wv]; [ discriminate | ].
  cbn [fst snd] in Hslice, Hpass. specialize (Hpass eq_refl). cbv zeta in Hpass.
  rewrite <- Hslice in Hpass.
  destruct Hpass as [H1 [H2 [_ [H4 [H5 Hwv]]]]].
  cbn [All drvM Memory.driver Memory.all driver wc fst snd Memory.rows] in H4, H5.
  rewrite (planMigration_planFor (drv := drvM) wv s) in H
    by (rewrite Hwv; reflexivity).
  assert (Hd : driver wv = driver wc) by (rewrite Hwv; reflexivity).
  rewrite Hd in H.
  cbn [All drvM Memory.driver Memory.all driver wc fst snd Memory.rows] in H.
  destruct (applyPlanned _ _ _) as [[e | ] w2] eqn:Hloop; [ discriminate | ].
  injection H as <- <-.
  apply applyPlanned_memory in Hloop. destruct Hloop as [records [Hrec [Hrows Htable]]].
  assert (Hd' : driver (snd (callAll (drv := drvM) wv)) = driver wc)
    by (rewrite Hwv; reflexivity).
  rewrite Hd' in Hrows, Htable. cbn [driver wc Memory.rows Memory.tableExists] in Hrows, Htable.
  repeat split; try assumption. now exists records.
Qed.


End MemoryFacts.

(* ================================================================= *)
(** ** Migrate twice *)

Module Again.

Lemma filter_none {A : Type} (p : A -> bool) l :
  (forall x, In x l -> p x = false) -> filter p l = [].
Proof.
  induction l as [ | a r IH ]; intros H; simpl; [ reflexivity | ].
  rewrite (H a (or_introl eq_refl)). apply IH. intros x Hx. apply H. now right.
Qed.

Section Facts.
Variable sorted : list Migration.
Variable rows0 records : list MigrationRecord.

Hypothesis Hnumbers : Says.numbers sorted.
Hypothesis Hdistinct : Says.distinct Version sorted.
Hypothesis Hmatched :
  Forall (fun r => exists m, In m sorted /\ F64.eq (Version m) (MigrationRecord.Version r) = true)
         rows0.
Hypothesis Hchecksums :
  Forall (fun m => forall r, FloatMap.lookup (Version m) (recordMap rows0) = Some r ->
                             MigrationRecord.Checksum r = Checksum m) sorted.
Hypothesis Hrecords : Forall2 recordOf (planFor rows0 sorted) records.

(** Every record, old or new, has a migration of its version. *)
Lemma matched_after :
  Forall (fun r => exists m, In m sorted /\ F64.eq (Version m) (MigrationRecord.Version r) = true)
         (rows0 ++ records).
Proof.
  apply Forall_app. split; [ exact Hmatched | ].
  apply Forall_forall. intros r Hr.
  destruct (Forall2_recordOf_In _ _ _ Hrecords Hr) as [m [Hm [Hv _]]].
  apply planFor_In in Hm. exists m. split; [ exact Hm | ].
  rewrite Hv. apply F64Facts.eq_reflexive.
  unfold Says.numbers in Hnumbers. rewrite Forall_forall in Hnumbers. now apply Hnumbers.
Qed.


(** Nothing is left to plan. *)
Lemma nothing_planned_after : planFor (rows0 ++ records) sorted = [].
Proof.
  destruct (rows0 ++ records) as [ | first rest ] eqn:Erows.
  { apply app_eq_nil in Erows. destruct Erows as [-> ->].
    cbn [planFor] in *. now inversion Hrecords. }
  unfold planFor. cbv zeta. rewrite <- Erows.
  pose proof matched_after as Hall.
  assert (Hnum : Says.numbered (rows0 ++ records)) by now apply Mark.matched_numbered in Hall.
  rewrite Erows in Hnum |- *.
  destruct (Mark.last_is_greatest first rest Hnum) as [Hin Hmax].
  set (last := hd first _) in *.
  rewrite filter_none; [ reflexivity | ].
  intros m Hm. unfold F64.gt.
  destruct (F64.lt (MigrationRecord.Version last) (Version m)) eqn:Elt; [ | exact Elt ].
  exfalso.
  assert (Hplanned : In m (planFor rows0 sorted)).
  { destruct rows0 as [ | f0 r0 ] eqn:E0; [ exact Hm | ].
    unfold planFor. cbv zeta. apply SortFacts.Sort_In, filter_In. split; [ exact Hm | ].
    assert (Hnum0 : Says.numbered (f0 :: r0)) by now apply Mark.matched_numbered in Hmatched.
    destruct (Mark.last_is_greatest f0 r0 Hnum0) as [Hin0 Hmax0].
    set (last0 := hd f0 _) in *. unfold F64.gt.
    assert (Hle : F64.lt (MigrationRecord.Version last) (MigrationRecord.Version last0) = false).
    { apply Hmax. rewrite <- Erows. apply in_or_app. now left. }
    unfold Says.numbered in Hnum, Hnum0. rewrite Forall_forall in Hnum, Hnum0.
    destruct (F64Facts.total _ _ (Hnum0 _ Hin0) (Hnum _ Hin)) as [H | [H | H]].
    - exact (F64Facts.lt_trans _ _ _ H Elt).
    - now rewrite (F64Facts.eq_lt_l _ _ _ H).
    - congruence. }
  destruct (Forall2_recordOf_record _ _ _ Hrecords Hplanned) as [r [Hr [Hv _]]].
  assert (Hr' : In r (first :: rest)) by (rewrite <- Erows; apply in_or_app; now right).
  apply Hmax in Hr'. rewrite Hv in Hr'. congruence.
Qed.

End Facts.

End Again.

Section Idempotence.
Variable fails : string -> option error.
Variable elapsed : string -> Duration.
Variable timeNow : nat -> Time.


End Idempotence.

(* ================================================================= *)
(** ** ParseMigrations *)

Module ParseFacts.

Import Strings Parse.

Lemma sliceFrom_Some n v : n <= String.length v -> exists p, sliceFrom n v = Some p.
Proof.
  revert v. induction n as [ | n IH ]; intros v H; [ now exists v | ].
  destruct v as [ | c r ]; simpl in *; [ lia | ]. apply IH. lia.
Qed.

Lemma sliceFrom_None n v : String.length v < n -> sliceFrom n v = None.
Proof.
  revert v. induction n as [ | n IH ]; intros v H; [ lia | ].
  destruct v as [ | c r ]; simpl in *; [ reflexivity | ]. apply IH. lia.
Qed.

Section Facts.
Variable ParseFloat : string -> option float64.







(** C3 (what the code does).  The payload of a version line is the slice
    [v[11:]], at a fixed offset.  After the literal form [-- Version: ] and
    the forms with one space that is where the payload starts (or one space
    before it); after the form without space, [--version:], it is one byte
    too far: the first byte of the payload is skipped, so [--version:1.0]
    is parsed as [.0], version 0, where [-- Version: 1.0] gives version
    1. *)
Theorem version_marker_without_space_skips_a_byte :
  (forall st p,
      line ParseFloat st ("-- Version: " ++ p)
      = line ParseFloat st ("--version: " ++ p) /\
      line ParseFloat st ("--version: " ++ p)
      = line ParseFloat st ("-- version:" ++ p)) /\
  (forall st p,
      line ParseFloat st ("-- version:" ++ p)
      = match ParseFloat (TrimSpace p) with
        | None => ReturnNil (TrimSpace p)
        | Some f => Next (mkState (migrations st ++ [withScript (m st) (script st)])
                                  (mkMigration f "" "") "")
        end) /\
  (forall st c p,
      line ParseFloat st ("--version:" ++ String c p)
      = match ParseFloat (TrimSpace p) with
        | None => ReturnNil (TrimSpace p)
        | Some f => Next (mkState (migrations st ++ [withScript (m st) (script st)])
                                  (mkMigration f "" "") "")
        end) /\
  ParseMigrations ParseFloat "--version:1.0"
  = match ParseFloat ".0" with
    | None => Returns (NilAfterError ".0")
    | Some f => Returns (Migrations [mkMigration f "" ""])
    end /\
  ParseMigrations ParseFloat "-- Version: 1.0"
  = match ParseFloat "1.0" with
    | None => Returns (NilAfterError "1.0")
    | Some f => Returns (Migrations [mkMigration f "" ""])
    end.
Proof.
  split; [ | split; [ | split; [ | split ] ] ].
  - intros st p. split; reflexivity.
  - intros st p. reflexivity.
  - intros st c p. reflexivity.
  - unfold ParseMigrations. cbn. now destruct (ParseFloat ".0").
  - unfold ParseMigrations. cbn. now destruct (ParseFloat "1.0").
Qed.

(** C9 (what the code does).  [ParseMigrations] is not total: a version
    line shorter than 11 bytes, such as [--version:], and a description
    line shorter than 15 bytes, such as [--description:], make the slices
    [v[11:]] and [v[15:]] start past the end of the line, and the call
    panics.  From 11 and 15 bytes on the slices are defined. *)
Theorem ParseMigrations_panics_on_short_markers :
  ParseMigrations ParseFloat "--version:" = Panics (SliceBoundsOutOfRange 11 10) /\
  ParseMigrations ParseFloat "--description:" = Panics (SliceBoundsOutOfRange 15 14) /\
  (forall st v, isVersionLine v = true -> String.length v < 11 ->
                line ParseFloat st v = Panic (SliceBoundsOutOfRange 11 (String.length v))) /\
  (forall st v, isVersionLine v = false -> isDescriptionLine v = true ->
                String.length v < 15 ->
                line ParseFloat st v = Panic (SliceBoundsOutOfRange 15 (String.length v))) /\
  (forall st v, withinBounds v -> forall p, line ParseFloat st v <> Panic p).
Proof.
  repeat split.
  - intros st v Hv Hlen. unfold line. now rewrite Hv, (sliceFrom_None 11 v Hlen).
  - intros st v Hv Hd Hlen. unfold line. now rewrite Hv, Hd, (sliceFrom_None 15 v Hlen).
  - intros st v [H1 H2] p. unfold line.
    destruct (isVersionLine v) eqn:Ev.
    + destruct (sliceFrom_Some 11 v (H1 eq_refl)) as [q ->].
      now destruct (ParseFloat (TrimSpace q)).
    + destruct (isDescriptionLine v) eqn:Ed; [ | discriminate ].
      now destruct (sliceFrom_Some 15 v (H2 eq_refl eq_refl)) as [q ->].
Qed.

End Facts.

End ParseFacts.

(* ================================================================= *)
(** ** The plan inside Migrate, and the statuses of Info *)

Section Inside.
Context {D : Type} {drv : Driver D}.

(** X1.  Inside [Migrate] the plan is made from the slice [Validate] has sorted
    and found free of duplicates: it ascends strictly in whatever order the
    caller gave the migrations, also on an empty history. *)
Theorem plan_inside_Migrate_ascends (w w' : world D) (migrations : list Migration) :
  Says.numbers migrations ->
  fst (fst (Validate w migrations)) = None ->
  Says.strictlyAscending
    (fst (fst (planMigration w' (snd (fst (Validate w migrations)))))).
Proof.
  intros Hn Hok. rewrite Validate_slice.
  apply Validate_passed in Hok. cbv zeta in Hok. destruct Hok as [_ [H2 _]].
  apply Checks.isDuplicated_none in H2.
  pose proof (SortFacts.Sort_perm byMigrationVersion migrations) as Hp.
  assert (Hn' : Says.numbers (Sort.Sort byMigrationVersion migrations))
    by (apply (Plan.numbers_perm migrations); assumption).
  apply Plan.planMigration_ascends; [ exact Hn' | exact H2 | ].
  intros _. apply Plan.sorted_strictly; [ | exact Hn' | exact H2 ].
  apply SortFacts.Sort_sorted, byMigrationVersion_asym.
Qed.

End Inside.

Module Statuses.

Lemma found_existsb (m : Migration) records found :
  fold_left (fun found record =>
               if F64.eq (MigrationRecord.Version record) (Version m) then true else found)
            records found
  = (found || existsb (fun r => F64.eq (MigrationRecord.Version r) (Version m)) records)%bool.
Proof.
  revert found. induction records as [ | r rest IH ]; intros found; simpl.
  - now rewrite orb_false_r.
  - rewrite IH. destruct (F64.eq (MigrationRecord.Version r) (Version m)); simpl.
    + now rewrite orb_true_r.
    + reflexivity.
Qed.

(** [getStatus] on a history that holds numbers and starts with a record of
    the greatest version. *)
Lemma getStatus_said top others m :
  Says.numbered (top :: others) ->
  (forall r, In r (top :: others) ->
             F64.lt (MigrationRecord.Version top) (MigrationRecord.Version r) = false) ->
  exists status, getStatus (top :: others) m = Returns status /\
                 statusSaid (top :: others) m status.
Proof.
  intros Hn Hmax. unfold getStatus.
  destruct (F64.gt (Version m) (MigrationRecord.Version top)) eqn:Egt.
  - exists Pending. split; [ reflexivity | ]. apply SaidPending.
    unfold Says.numbered in Hn. rewrite Forall_forall in *. intros r Hr.
    unfold F64.gt in *.
    destruct (F64Facts.total _ _ (Hn r Hr) (Hn top (or_introl eq_refl))) as [H | [H | H]].
    + exact (F64Facts.lt_trans _ _ _ H Egt).
    + now rewrite (F64Facts.eq_lt_l _ _ _ H).
    + now rewrite (Hmax r Hr) in H.
  - rewrite found_existsb. cbn [orb].
    destruct (existsb _ (top :: others)) eqn:Ex; cbn [negb].
    + exists Applied. split; [ reflexivity | ].
      apply existsb_exists in Ex. destruct Ex as [r [Hr Er]]. now apply (SaidApplied _ _ r).
    + exists Ignored. split; [ reflexivity | ].
      apply (SaidIgnored _ _ top); [ now left | exact Egt | ].
      apply Forall_forall. intros r Hr.
      destruct (F64.eq (MigrationRecord.Version r) (Version m)) eqn:E; [ | reflexivity ].
      assert (Hex : existsb (fun r => F64.eq (MigrationRecord.Version r) (Version m))
                            (top :: others) = true)
        by (apply existsb_exists; now exists r).
      congruence.
Qed.

Lemma statusSaid_perm records records' m status :
  Permutation records records' -> statusSaid records m status -> statusSaid records' m status.
Proof.
  intros Hp [ Hall | r Hr Er | top Ht Egt Hall ].
  - apply SaidPending. now rewrite <- Hp.
  - apply (SaidApplied _ _ r); [ now apply (Permutation_in _ Hp) | exact Er ].
  - apply (SaidIgnored _ _ top); [ now apply (Permutation_in _ Hp) | exact Egt | ].
    now rewrite <- Hp.
Qed.

Lemma infoOf_said records sorted ms :
  (forall m, exists status, getStatus sorted m = Returns status /\ statusSaid records m status) ->
  exists info,
    infoOf sorted ms = Returns info /\
    map InfoMigration info = ms /\
    Forall (fun i => statusSaid records (InfoMigration i) (InfoStatus i) /\ InfoError i = None)
           info.
Proof.
  intros H. induction ms as [ | m rest [info [E [Hm Hall]]] ].
  - exists []. repeat split; constructor.
  - destruct (H m) as [status [Es Hs]]. cbn [infoOf]. rewrite Es, E.
    exists (mkMigrationInfo status None m :: info).
    split; [ reflexivity | ]. split; [ cbn; now rewrite Hm | ].
    constructor; [ now split | exact Hall ].
Qed.

End Statuses.

Section InfoSaid.
Context {D : Type} {drv : Driver D}.

(** X2.  On a history that is not empty and holds numbers, [Info] reports, for
    every migration in the order given, the status of section 4.5:
    [Pending] above every applied version, else [Applied] when a record has
    the version, else [Ignored]; the error of every entry is nil, and [Info]
    returns no error. *)
Theorem Info_reports_the_statuses (w : world D) (migrations : list Migration)
  (first : MigrationRecord) (rest : list MigrationRecord) :
  fst (All (driver w)) = (first :: rest, None) ->
  Says.numbered (first :: rest) ->
  exists info,
    fst (Info w migrations) = Returns (info, None) /\
    map InfoMigration info = migrations /\
    Forall (fun i => statusSaid (first :: rest) (InfoMigration i) (InfoStatus i) /\
                     InfoError i = None) info.
Proof.
  intros Hall Hn. unfold Info, callAll.
  destruct (All (driver w)) as [[records err] d]. cbn [fst] in Hall.
  injection Hall as -> ->. cbn [fst snd].
  set (less := Sort.Reverse byMigrationRecordVersion).
  pose proof (SortFacts.Sort_perm less (first :: rest)) as Hp.
  destruct (Mark.last_is_greatest first rest Hn) as [_ Hmax]. fold less in Hmax.
  destruct (Sort.Sort less (first :: rest)) as [ | top others ] eqn:E.
  { apply Permutation_sym, Permutation_nil in Hp. discriminate. }
  cbn [hd] in Hmax.
  destruct (Statuses.infoOf_said (first :: rest) (top :: others) migrations)
    as [info [Einfo [Hm Hs]]].
  { intros m.
    destruct (Statuses.getStatus_said top others m) as [status [Es Hs]].
    - unfold Says.numbered. now rewrite <- Hp.
    - intros r Hr. apply Hmax. now apply (Permutation_in _ (Permutation_sym Hp)).
    - exists status. split; [ exact Es | ].
      now apply (Statuses.statusSaid_perm (top :: others)); [ symmetry | ]. }
  exists info. rewrite Einfo. auto.
Qed.

End InfoSaid.

Section Removal.
Context {D : Type} {drv : Driver D}.

(** X3.  Removal sensitivity (section 8).  Take a migration set and a history
    that [Validate] accepts, and a migration that was applied and recorded.
    Leave it out of the set: the next [Validate] returns
    [RemovedMigrationError] for its version. *)
Theorem left_out_migration_is_detected (w : world D) (migrations : list Migration)
  (m : Migration) :
  fst (fst (Validate w migrations)) = None ->
  In m migrations ->
  (exists r, In r (fst (fst (All (driver w)))) /\
             F64.eq (MigrationRecord.Version r) (Version m) = true) ->
  exists v,
    fst (fst (Validate w (filter (fun x => negb (F64.eq (Version x) (Version m))) migrations)))
    = Some (RemovedMigrationError v) /\
    F64.eq v (Version m) = true.
Proof.
  intros Hok Hm [r0 [Hr0 Er0]].
  apply Validate_passed in Hok. cbv zeta in Hok.
  destruct Hok as [H1 [H2 [H3 [H4 _]]]].
  set (keep := fun x => negb (F64.eq (Version x) (Version m))).
  set (applied := fst (fst (All (driver w)))) in *.
  pose proof (SortFacts.Sort_perm byMigrationVersion migrations) as Hp.
  pose proof (SortFacts.Sort_perm byMigrationVersion (filter keep migrations)) as Hq.
  set (sorted := Sort.Sort byMigrationVersion migrations) in *.
  set (remaining := Sort.Sort byMigrationVersion (filter keep migrations)) in *.
  assert (Hsub : forall x, In x remaining -> In x sorted /\ keep x = true).
  { intros x Hx. apply (Permutation_in _ (Permutation_sym Hq)), filter_In in Hx.
    destruct Hx as [Hx Hk]. split; [ now apply (Permutation_in _ Hp) | exact Hk ]. }
  unfold Validate, callAll. fold remaining.
  destruct (isInvalidVersion remaining) as [v1 [ | ]] eqn:E1.
  { apply Checks.isInvalidVersion_found in E1. destruct E1 as [x [Hx [Hv Hlt]]].
    exfalso. apply (Checks.isInvalidVersion_none sorted H1 v1).
    exists x. split; [ now apply Hsub | now split ]. }
  destruct (isDuplicated remaining) as [v2 [ | ]] eqn:E2.
  { apply Checks.isDuplicated_found, Checks.duplicate_not_distinct in E2. exfalso. apply E2.
    apply (Checks.distinct_perm Version _ _ Hq), Checks.distinct_filter.
    apply (Checks.distinct_perm Version sorted); [ now symmetry | ].
    now apply Checks.isDuplicated_none. }
  destruct (All (driver w)) as [[applied' err] d]. cbn [fst snd] in *.
  subst applied. subst err.
  apply Checks.wasRemoved_matched in H4.
  destruct (wasRemovedMigration applied' remaining) as [v3 [ | ]] eqn:E3.
  - exists v3. split; [ reflexivity | ].
    apply Checks.wasRemoved_found in E3. destruct E3 as [r [Hr [Hv Hnone]]]. subst v3.
    rewrite Forall_forall in H4, Hnone.
    destruct (H4 r Hr) as [m' [Hm' Em']].
    destruct (keep m') eqn:Ek.
    + assert (Hin : In m' remaining).
      { apply (Permutation_in _ Hq), filter_In. split; [ | exact Ek ].
        now apply (Permutation_in _ (Permutation_sym Hp)). }
      now rewrite (Hnone m' Hin) in Em'.
    + unfold keep in Ek. apply negb_false_iff in Ek.
      rewrite F64Facts.eq_symmetric in Em'.
      exact (F64Facts.eq_transitive _ _ _ Em' Ek).
  - exfalso. pose proof (Checks.wasRemoved_matched applied' remaining) as Hmatch.
    rewrite E3 in Hmatch. specialize (Hmatch eq_refl). rewrite Forall_forall in Hmatch.
    destruct (Hmatch r0 Hr0) as [x [Hx Ex]].
    destruct (Hsub x Hx) as [_ Hk]. unfold keep in Hk. apply negb_true_iff in Hk.
    rewrite F64Facts.eq_symmetric in Er0.
    now rewrite (F64Facts.eq_eq_l _ _ _ Ex), F64Facts.eq_symmetric, Er0 in Hk.
Qed.

End Removal.

(* ================================================================= *)
(** ** The calls of a run *)

Module Trace.

Lemma stops_after pre made result :
  Forall answered pre -> stopsAtFirstError made result ->
  stopsAtFirstError (pre ++ made) result.
Proof.
  intros Hpre [[Hall Hr] | [before [failed [e [-> [Hb [Ha Hr]]]]]]].
  - left. split; [ apply Forall_app; now split | exact Hr ].
  - right. exists (pre ++ before), failed, e. rewrite app_assoc.
    repeat split; try assumption. apply Forall_app. now split.
Qed.

Lemma stops_none made : stopsAtFirstError made None -> Forall answered made.
Proof.
  intros [[Hall _] | [before [failed [e [_ [_ [_ Hr]]]]]]]; [ exact Hall | discriminate ].
Qed.

Section Runs.
Context {D : Type} {drv : Driver D}.
Variable timeNow : nat -> Time.

Lemma Validate_run (w : world D) ms :
  exists made,
    calls (snd (Validate w ms)) = calls w ++ made /\
    stopsAtFirstError made (fst (fst (Validate w ms))).
Proof.
  unfold Validate, callAll.
  destruct (isInvalidVersion _) as [v1 [ | ]].
  { exists []. cbn [fst snd]. rewrite app_nil_r. split; [ reflexivity | ].
    left. split; [ constructor | right; now eexists ]. }
  destruct (isDuplicated _) as [v2 [ | ]].
  { exists []. cbn [fst snd]. rewrite app_nil_r. split; [ reflexivity | ].
    left. split; [ constructor | right; now eexists ]. }
  destruct (All (driver w)) as [[applied [e | ]] d].
  { exists [AllCalled applied (Some e)]. cbn [fst snd calls]. split; [ reflexivity | ].
    right. now exists [], (AllCalled applied (Some e)), e. }
  exists [AllCalled applied None].
  assert (Hok : Forall answered [AllCalled applied None]) by now repeat constructor.
  destruct (wasRemovedMigration _ _) as [v3 [ | ]].
  { cbn [fst snd calls]. split; [ reflexivity | ]. left. split; [ exact Hok | right; now eexists ]. }
  destruct (isInvalidChecksumMigration _ _) as [v4 [ | ]]; cbn [fst snd calls].
  - split; [ reflexivity | ]. left. split; [ exact Hok | right; now eexists ].
  - split; [ reflexivity | ]. left. split; [ exact Hok | now left ].
Qed.

Lemma planMigration_run (w : world D) ms :
  exists made,
    calls (snd (planMigration w ms)) = calls w ++ made /\
    stopsAtFirstError made (snd (fst (planMigration w ms))).
Proof.
  unfold planMigration, callAll.
  destruct (All (driver w)) as [[records [e | ]] d].
  - exists [AllCalled records (Some e)]. cbn [fst snd calls]. split; [ reflexivity | ].
    right. now exists [], (AllCalled records (Some e)), e.
  - exists [AllCalled records None].
    assert (Hok : Forall answered [AllCalled records None]) by now repeat constructor.
    destruct records; cbn [fst snd calls]; (split; [ reflexivity | left; split; [ exact Hok | now left ] ]).
Qed.

Lemma applyPlanned_run planned (w : world D) :
  exists made,
    calls (snd (applyPlanned timeNow planned w)) = calls w ++ made /\
    stopsAtFirstError made (fst (applyPlanned timeNow planned w)).
Proof.
  revert w. induction planned as [ | m rest IH ]; intros w; cbn [applyPlanned].
  - exists []. cbn [fst snd]. rewrite app_nil_r. split; [ reflexivity | ].
    left. split; [ constructor | now left ].
  - unfold callExec, now, callInsert.
    destruct (Exec (Script m) (driver w)) as [[dur [e | ]] d1]; cbn [driver calls ticks].
    { exists [ExecCalled (Script m) (Some e)]. cbn [fst snd calls]. split; [ reflexivity | ].
      right. now exists [], (ExecCalled (Script m) (Some e)), e. }
    set (r := MigrationRecord.mk _ _ _ _ _).
    destruct (Insert r d1) as [[e | ] d2].
    { exists [ExecCalled (Script m) None; InsertCalled r (Some e)]. cbn [fst snd calls].
      rewrite <- app_assoc. split; [ reflexivity | ].
      right. exists [ExecCalled (Script m) None], (InsertCalled r (Some e)), e.
      repeat split. now repeat constructor. }
    destruct (IH (mkWorld d2 ((calls w ++ [ExecCalled (Script m) None]) ++ [InsertCalled r None])
                          (S (ticks w)))) as [made [Hcalls Hstops]].
    exists ([ExecCalled (Script m) None; InsertCalled r None] ++ made).
    split.
    + rewrite Hcalls. cbn [calls]. rewrite <- !app_assoc. reflexivity.
    + apply stops_after; [ now repeat constructor | exact Hstops ].
Qed.

End Runs.

End Trace.

Section RunFacts.
Context {D : Type} {drv : Driver D}.
Variable timeNow : nat -> Time.

(** X5.  [Migrate] stops at the first call the driver answers with an
    error, and hands that error back as it is: the calls it has made are
    then the calls answered without error, followed by the failed one as the
    last.  When no call failed, [Migrate] returns nil or one of the four
    errors of [Validate]; so when it returns nil, every call it made on the
    driver was answered without error. *)
Theorem Migrate_stops_at_the_first_error (w : world D) (migrations : list Migration) :
  exists made,
    calls (snd (Migrate timeNow w migrations)) = calls w ++ made /\
    stopsAtFirstError made (fst (fst (Migrate timeNow w migrations))).
Proof.
  unfold Migrate, callCreate.
  destruct (Create (driver w)) as [[e | ] d0].
  { exists [CreateCalled (Some e)]. cbn [fst snd calls]. split; [ reflexivity | ].
    right. now exists [], (CreateCalled (Some e)), e. }
  set (wc := mkWorld d0 _ _).
  destruct (Trace.Validate_run wc migrations) as [made1 [Hc1 Hs1]].
  destruct (Validate wc migrations) as [[err1 sorted] wv]. cbn [fst snd] in Hc1, Hs1.
  assert (Hcreate : Forall answered [CreateCalled None]) by now repeat constructor.
  destruct err1 as [e | ].
  { exists ([CreateCalled None] ++ made1). cbn [fst snd].
    split; [ rewrite Hc1; cbn [calls wc]; now rewrite <- app_assoc | ].
    now apply Trace.stops_after. }
  apply Trace.stops_none in Hs1.
  destruct (Trace.planMigration_run wv sorted) as [made2 [Hc2 Hs2]].
  destruct (planMigration wv sorted) as [[planned err2] wp]. cbn [fst snd] in Hc2, Hs2.
  destruct err2 as [e | ].
  { exists ([CreateCalled None] ++ made1 ++ made2). cbn [fst snd].
    split; [ rewrite Hc2, Hc1; cbn [calls wc]; now rewrite <- !app_assoc | ].
    apply Trace.stops_after; [ exact Hcreate | ]. now apply Trace.stops_after. }
  apply Trace.stops_none in Hs2.
  destruct (Trace.applyPlanned_run timeNow planned wp) as [made3 [Hc3 Hs3]].
  destruct (applyPlanned timeNow planned wp) as [err3 w3]. cbn [fst snd] in *.
  exists ([CreateCalled None] ++ made1 ++ made2 ++ made3).
  split; [ rewrite Hc3, Hc2, Hc1; cbn [calls wc]; now rewrite <- !app_assoc | ].
  apply Trace.stops_after; [ exact Hcreate | ]. apply Trace.stops_after; [ exact Hs1 | ].
  now apply Trace.stops_after.
Qed.

(** X6.  What a successful [Migrate] has done, on every driver: it has
    called [Create], then [All] for [Validate], then [All] for the plan, and
    then, for each migration of the plan made from that second history and
    the sorted slice, in the order of the plan, [Exec] with its script and
    [Insert] with a record of its version, description and checksum; it has
    called the driver for nothing else. *)
Theorem Migrate_success_runs_the_plan (w w1 : world D) (migrations sorted : list Migration) :
  Migrate timeNow w migrations = ((None, sorted), w1) ->
  exists history history' records,
    sorted = Sort.Sort byMigrationVersion migrations /\
    Forall2 recordOf (planFor history' sorted) records /\
    calls w1 = calls w
               ++ [CreateCalled None; AllCalled history None; AllCalled history' None]
               ++ appliedCalls (planFor history' sorted) records.
Proof.
  unfold Migrate, callCreate.
  destruct (Create (driver w)) as [[e | ] d0]; [ discriminate | ].
  set (wc := mkWorld d0 _ _).
  pose proof (Validate_slice wc migrations) as Hslice.
  pose proof (Validate_passed wc migrations) as Hpass.
  destruct (Validate wc migrations) as [[[e | ] s] wv]; [ discriminate | ].
  cbn [fst snd] in Hslice, Hpass. specialize (Hpass eq_refl). cbv zeta in Hpass.
  destruct Hpass as [_ [_ [Herr [_ [_ Hwv]]]]].
  unfold callAll in Hwv.
  destruct (All (driver wc)) as [[history err] d1]. cbn [fst snd] in Herr, Hwv. subst err wv.
  cbn [calls wc].
  unfold planMigration, callAll. cbn [driver calls ticks].
  destruct (All d1) as [[history' [e | ]] d2]; [ discriminate | ].
  set (wp := mkWorld d2 _ _).
  assert (Hplan : forall plan,
             (match history' with
              | [] => ((s, @None error), wp)
              | first :: _ =>
                  ((Sort.Sort byMigrationVersion
                      (filter (fun migration =>
                                 F64.gt (Version migration)
                                        (MigrationRecord.Version
                                           (hd first (Sort.Sort (Sort.Reverse byMigrationRecordVersion)
                                                                history'))))
                              s), None), wp)
              end) = plan -> plan = ((planFor history' s, None), wp)).
  { intros plan <-. unfold planFor. now destruct history'. }
  match goal with
  | |- (let '(_, _) := ?p in _) = _ -> _ => rewrite (Hplan p eq_refl)
  end.
  destruct (applyPlanned timeNow (planFor history' s) wp) as [[e | ] w3] eqn:Hloop;
    [ discriminate | ].
  intros [= <- <-].
  destruct (applyPlanned_done timeNow _ _ _ Hloop) as [records [Hrec Hcalls]].
  exists history, history', records.
  split; [ exact Hslice | ]. split; [ exact Hrec | ].
  rewrite Hcalls. cbn [calls wp]. now rewrite <- !app_assoc.
Qed.

(** X7.  Let [Insert] fail for the N-th planned migration during [Migrate]:
    [Create], [Validate] and the planning succeeded, the planned migrations
    before the N-th were executed and recorded, and the script of the N-th
    was executed without error.  Then [Migrate] returns the error of
    [Insert] at once.  Its last two calls are the [Exec] of that script and
    the failed [Insert]: the script has run and no record of it was taken,
    and no later migration is executed or recorded. *)
Theorem Migrate_stops_at_the_failing_insert
  (w wc wv wp w1 : world D) (migrations sorted before after : list Migration)
  (failing : Migration) (dur : Duration) (d1 : D) (e : error) :
  callCreate w = (None, wc) ->
  Validate wc migrations = ((None, sorted), wv) ->
  planMigration wv sorted = ((before ++ failing :: after, None), wp) ->
  applyPlanned timeNow before wp = (None, w1) ->
  Exec (Script failing) (driver w1) = ((dur, None), d1) ->
  fst (Insert (recordAt timeNow (ticks w1) dur failing) d1) = Some e ->
  let result := Migrate timeNow w migrations in
  fst (fst result) = Some e /\
  driver (snd result) = snd (Insert (recordAt timeNow (ticks w1) dur failing) d1) /\
  exists records,
    Forall2 recordOf before records /\
    calls (snd result)
    = calls wp ++ appliedCalls before records
      ++ [ExecCalled (Script failing) None;
          InsertCalled (recordAt timeNow (ticks w1) dur failing) (Some e)].
Proof.
  intros Hc Hv Hp Hloop Hexec Hins result. subst result.
  unfold Migrate. rewrite Hc, Hv, Hp, applyPlanned_app, Hloop.
  cbn [applyPlanned]. unfold callExec, now, callInsert. rewrite Hexec.
  cbn [driver calls ticks]. fold (recordAt timeNow (ticks w1) dur failing).
  destruct (Insert (recordAt timeNow (ticks w1) dur failing) d1) as [err d2].
  cbn [fst snd] in *. subst err. cbn [fst snd driver calls].
  repeat split.
  destruct (applyPlanned_done _ _ _ _ Hloop) as [records [Hrec Hcalls]].
  exists records. split; [ exact Hrec | ]. now rewrite Hcalls, <- !app_assoc.
Qed.

End RunFacts.

(* ================================================================= *)
(** ** What is planned, and what Info calls Pending *)

Module Above.

(** Above the record of the greatest version is above every record. *)
Lemma gt_last_aboveAll first rest m :
  Says.numbered (first :: rest) ->
  let last := hd first (Sort.Sort (Sort.Reverse byMigrationRecordVersion) (first :: rest)) in
  F64.gt (Version m) (MigrationRecord.Version last) = aboveAll (first :: rest) m.
Proof.
  intros Hn last. destruct (Mark.last_is_greatest first rest Hn) as [Hin Hmax].
  fold last in Hin, Hmax. unfold aboveAll.
  destruct (F64.gt (Version m) (MigrationRecord.Version last)) eqn:Egt; symmetry.
  - apply forallb_forall. intros r Hr. unfold F64.gt in *.
    unfold Says.numbered in Hn. rewrite Forall_forall in Hn.
    destruct (F64Facts.total _ _ (Hn r Hr) (Hn last Hin)) as [H | [H | H]].
    + exact (F64Facts.lt_trans _ _ _ H Egt).
    + now rewrite (F64Facts.eq_lt_l _ _ _ H).
    + now rewrite (Hmax r Hr) in H.
  - destruct (forallb _ _) eqn:Eall; [ | reflexivity ].
    rewrite forallb_forall in Eall. now rewrite (Eall last Hin) in Egt.
Qed.

(** The entries of [Info] that are [Pending], on a history that starts with
    the record [top]. *)
Lemma infoOf_pending top others ms :
  exists info,
    infoOf (top :: others) ms = Returns info /\
    map InfoMigration (filter isPending info)
    = filter (fun m => F64.gt (Version m) (MigrationRecord.Version top)) ms.
Proof.
  induction ms as [ | m rest [info [E Hinfo]] ].
  - now exists [].
  - cbn [infoOf filter]. rewrite E. unfold getStatus.
    destruct (F64.gt (Version m) (MigrationRecord.Version top)).
    + eexists. split; [ reflexivity | ]. cbn. now rewrite Hinfo.
    + destruct (negb _); (eexists; split; [ reflexivity | ]); cbn; exact Hinfo.
Qed.

End Above.

Section PlanSaid.
Context {D : Type} {drv : Driver D}.

(** X8.  On a history that is not empty and whose versions are numbers, the
    plan holds the migrations whose version is greater than that of every
    record, each as often as the list has it, and no other migration: a
    migration at or below the greatest applied version is never planned,
    applied or not. *)
Theorem plan_is_what_lies_above_the_history (w : world D) (migrations : list Migration)
  (first : MigrationRecord) (rest : list MigrationRecord) :
  fst (All (driver w)) = (first :: rest, None) ->
  Says.numbered (first :: rest) ->
  Permutation (fst (fst (planMigration w migrations)))
              (filter (aboveAll (first :: rest)) migrations).
Proof.
  intros Hall Hn.
  rewrite planMigration_planFor by now rewrite Hall.
  rewrite Hall. cbn [fst snd planFor].
  rewrite (filter_ext _ (aboveAll (first :: rest)))
    by (intros m; apply (Above.gt_last_aboveAll first rest m Hn)).
  symmetry. apply SortFacts.Sort_perm.
Qed.

(** X9.  [Info] and the planner agree: against one history that is not
    empty, the migrations [Info] reports as [Pending] are those
    [planMigration] plans, each as often. *)
Theorem Info_reports_Pending_what_is_planned (w : world D) (migrations : list Migration)
  (first : MigrationRecord) (rest : list MigrationRecord) :
  fst (All (driver w)) = (first :: rest, None) ->
  exists info,
    fst (Info w migrations) = Returns (info, None) /\
    Permutation (map InfoMigration (filter isPending info))
                (fst (fst (planMigration w migrations))).
Proof.
  intros Hall.
  rewrite planMigration_planFor by now rewrite Hall.
  unfold Info, callAll.
  destruct (All (driver w)) as [[records err] d]. cbn [fst] in Hall.
  injection Hall as -> ->. cbn [fst snd planFor].
  set (less := Sort.Reverse byMigrationRecordVersion).
  pose proof (SortFacts.Sort_perm less (first :: rest)) as Hp.
  destruct (Sort.Sort less (first :: rest)) as [ | top others ] eqn:E.
  { apply Permutation_sym, Permutation_nil in Hp. discriminate. }
  cbn [hd].
  destruct (Above.infoOf_pending top others migrations) as [info [Einfo Hinfo]].
  exists info. rewrite Einfo. split; [ reflexivity | ].
  rewrite Hinfo. apply SortFacts.Sort_perm.
Qed.

End PlanSaid.

(* ================================================================= *)
(** ** The checks do not depend on the order of the migrations *)

Module Order.

Lemma bool_eq (b b' : bool) : (b = true -> b' = true) -> (b' = true -> b = true) -> b = b'.
Proof. destruct b, b'; intuition congruence. Qed.

Lemma isInvalidVersion_perm l l' :
  Permutation l l' -> snd (isInvalidVersion l) = snd (isInvalidVersion l').
Proof.
  assert (H : forall a b, Permutation a b ->
                          snd (isInvalidVersion a) = true -> snd (isInvalidVersion b) = true).
  { intros a b Hp Ha. destruct (isInvalidVersion a) as [v f] eqn:E. cbn in Ha. subst f.
    apply Checks.isInvalidVersion_found, (Transport.illegal_perm _ _ _ Hp) in E.
    destruct (snd (isInvalidVersion b)) eqn:Eb; [ reflexivity | ].
    now apply (Checks.isInvalidVersion_none b Eb) in E. }
  intros Hp. apply bool_eq; apply H; [ exact Hp | now symmetry ].
Qed.

Lemma isDuplicated_perm l l' :
  Permutation l l' -> snd (isDuplicated l) = snd (isDuplicated l').
Proof.
  assert (H : forall a b, Permutation a b ->
                          snd (isDuplicated a) = true -> snd (isDuplicated b) = true).
  { intros a b Hp Ha. destruct (isDuplicated a) as [v f] eqn:E. cbn in Ha. subst f.
    apply Checks.isDuplicated_found, (Transport.duplicate_perm _ _ _ Hp),
      Checks.duplicate_not_distinct in E.
    destruct (snd (isDuplicated b)) eqn:Eb; [ reflexivity | ].
    now apply Checks.isDuplicated_none in Eb. }
  intros Hp. apply bool_eq; apply H; [ exact Hp | now symmetry ].
Qed.

Lemma wasRemoved_perm applied l l' :
  Permutation l l' ->
  snd (wasRemovedMigration applied l) = snd (wasRemovedMigration applied l').
Proof.
  assert (H : forall a b, Permutation a b ->
                          snd (wasRemovedMigration applied a) = true ->
                          snd (wasRemovedMigration applied b) = true).
  { intros a b Hp Ha. destruct (wasRemovedMigration applied a) as [v f] eqn:E.
    cbn in Ha. subst f.
    apply Checks.wasRemoved_found, (Transport.removed_perm _ _ _ _ Hp) in E.
    destruct (snd (wasRemovedMigration applied b)) eqn:Eb; [ reflexivity | ].
    now apply (Checks.wasRemoved_none applied b Eb) in E. }
  intros Hp. apply bool_eq; apply H; [ exact Hp | now symmetry ].
Qed.

Lemma isInvalidChecksum_perm applied l l' :
  Permutation l l' ->
  snd (isInvalidChecksumMigration applied l) = snd (isInvalidChecksumMigration applied l').
Proof.
  assert (H : forall a b, Permutation a b ->
                          snd (isInvalidChecksumMigration applied a) = false ->
                          snd (isInvalidChecksumMigration applied b) = false).
  { intros a b Hp Ha. apply Checks.isInvalidChecksum_passed.
    apply Checks.isInvalidChecksum_passed in Ha. now rewrite <- Hp. }
  intros Hp.
  destruct (snd (isInvalidChecksumMigration applied l)) eqn:E.
  - destruct (snd (isInvalidChecksumMigration applied l')) eqn:E'; [ reflexivity | ].
    apply (H l' l) in E'; [ congruence | now symmetry ].
  - symmetry. now apply (H l l').
Qed.

Lemma sameCheck_refl a : sameCheck a a.
Proof. destruct a as [ [ | | | | ] | ]; now cbn. Qed.

(** No comparison with a NaN holds. *)
Lemma nan_lt a b : F64.isNaN a = true -> F64.lt a b = false.
Proof.
  intros H. destruct (F64.lt a b) eqn:E; [ | reflexivity ].
  apply F64Facts.lt_number_l in E. congruence.
Qed.

Lemma nan_eq_l a b : F64.isNaN a = true -> F64.eq a b = false.
Proof.
  intros H. destruct (F64.eq a b) eqn:E; [ | reflexivity ].
  apply F64Facts.eq_number_l in E. congruence.
Qed.

Lemma nan_eq_r a b : F64.isNaN b = true -> F64.eq a b = false.
Proof.
  intros H. destruct (F64.eq a b) eqn:E; [ | reflexivity ].
  apply F64Facts.eq_number_r in E. congruence.
Qed.

End Order.

Section OrderFacts.
Context {D : Type} {drv : Driver D}.

(** X12.  The answer of [Validate] does not depend on the order in which the
    caller holds the migrations: given the same migrations in another
    order, [Validate] stops at the same check (it returns nil both times,
    or the same type of error, or the same error of the driver) and has
    made the same calls on the driver.  The version an error carries may be
    that of another offending migration. *)
Theorem Validate_does_not_depend_on_the_order (w : world D)
  (migrations migrations' : list Migration) :
  Permutation migrations migrations' ->
  sameCheck (fst (fst (Validate w migrations))) (fst (fst (Validate w migrations'))) /\
  snd (Validate w migrations) = snd (Validate w migrations').
Proof.
  intros Hp.
  assert (Hs : Permutation (Sort.Sort byMigrationVersion migrations)
                           (Sort.Sort byMigrationVersion migrations')).
  { rewrite <- (SortFacts.Sort_perm byMigrationVersion migrations).
    now rewrite <- (SortFacts.Sort_perm byMigrationVersion migrations'). }
  unfold Validate, callAll.
  set (s := Sort.Sort byMigrationVersion migrations) in *.
  set (s' := Sort.Sort byMigrationVersion migrations') in *.
  pose proof (Order.isInvalidVersion_perm s s' Hs) as E1.
  pose proof (Order.isDuplicated_perm s s' Hs) as E2.
  destruct (isInvalidVersion s) as [v1 b1], (isInvalidVersion s') as [v1' b1'].
  cbn [snd] in E1. subst b1'. destruct b1; [ now split | ].
  destruct (isDuplicated s) as [v2 b2], (isDuplicated s') as [v2' b2'].
  cbn [snd] in E2. subst b2'. destruct b2; [ now split | ].
  destruct (All (driver w)) as [[applied [e | ]] d].
  { split; [ apply Order.sameCheck_refl | reflexivity ]. }
  pose proof (Order.wasRemoved_perm applied s s' Hs) as E3.
  pose proof (Order.isInvalidChecksum_perm applied s s' Hs) as E4.
  destruct (wasRemovedMigration applied s) as [v3 b3],
           (wasRemovedMigration applied s') as [v3' b3'].
  cbn [snd] in E3. subst b3'. destruct b3; [ now split | ].
  destruct (isInvalidChecksumMigration applied s) as [v4 b4],
           (isInvalidChecksumMigration applied s') as [v4' b4'].
  cbn [snd] in E4. subst b4'. destruct b4; now split.
Qed.

(** X13.  [Validate] does not refuse a version that is not a number: a
    migration whose version is NaN, added to migrations that [Validate]
    accepts, leaves them accepted.  NaN is not below zero, equals no other
    version, and no record is looked up under it. *)
Theorem Validate_accepts_a_NaN_version (w : world D) (migrations : list Migration)
  (odd : Migration) :
  fst (fst (Validate w migrations)) = None ->
  F64.isNaN (Version odd) = true ->
  fst (fst (Validate w (odd :: migrations))) = None.
Proof.
  intros Hok Hnan.
  apply Validate_passed in Hok. cbv zeta in Hok.
  destruct Hok as [H1 [H2 [H3 [H4 H5]]]]. destruct H5 as [H5 _].
  set (s := Sort.Sort byMigrationVersion migrations) in *.
  set (applied := fst (fst (All (driver w)))) in *.
  assert (Hp : Permutation (Sort.Sort byMigrationVersion (odd :: migrations)) (odd :: s)).
  { rewrite <- (SortFacts.Sort_perm byMigrationVersion (odd :: migrations)).
    constructor. apply SortFacts.Sort_perm. }
  rewrite Validate_passes; [ reflexivity | | | exact H3 | | ]; cbv zeta; fold applied.
  - rewrite (Order.isInvalidVersion_perm _ _ Hp). cbn [isInvalidVersion].
    now rewrite (Order.nan_lt _ F64.zero Hnan).
  - rewrite (Order.isDuplicated_perm _ _ Hp). apply Checks.isDuplicated_distinct.
    split; [ | now apply Checks.isDuplicated_none ].
    apply Forall_forall. intros b _. now apply Order.nan_eq_l.
  - rewrite (Order.wasRemoved_perm applied _ _ Hp). apply Checks.wasRemoved_matched_none.
    apply Checks.wasRemoved_matched in H4. revert H4. apply Forall_impl.
    intros r [m [Hm Hr]]. exists m. split; [ now right | exact Hr ].
  - rewrite (Order.isInvalidChecksum_perm applied _ _ Hp).
    apply Checks.isInvalidChecksum_passed. constructor.
    + intros r Hr. apply (FloatMapFacts.lookup_filled_Some MigrationRecord.Version) in Hr.
      destruct Hr as [_ Hr]. now rewrite (Order.nan_eq_r _ _ Hnan) in Hr.
    + now apply Checks.isInvalidChecksum_passed.
Qed.

(** X14.  A record whose version is NaN is matched by no migration: while
    the history holds one, [Validate] returns an error for every list of
    migrations. *)
Theorem NaN_record_fails_every_Validate (w : world D) (migrations : list Migration)
  (r : MigrationRecord) :
  In r (fst (fst (All (driver w)))) ->
  F64.isNaN (MigrationRecord.Version r) = true ->
  fst (fst (Validate w migrations)) <> None.
Proof.
  intros Hr Hnan Hok.
  apply Validate_passed in Hok. cbv zeta in Hok.
  destruct Hok as [_ [_ [_ [H4 _]]]].
  apply Checks.wasRemoved_matched in H4. rewrite Forall_forall in H4.
  destruct (H4 r Hr) as [m [_ Hm]].
  now rewrite (Order.nan_eq_r _ _ Hnan) in Hm.
Qed.

End OrderFacts.

(* ================================================================= *)
(** ** The form of a checksum *)

Module Digest.

Local Open Scope Z_scope.

Local Abbreviation byte := (fun b : Z => 0 <= b < 256).

Lemma littleEndian_bytes count x : Forall byte (MD5.littleEndian count x).
Proof.
  revert x. induction count as [ | k IH ]; intros x; cbn [MD5.littleEndian]; constructor.
  - cbv beta. change 255 with (Z.ones 8). rewrite Z.land_ones by lia.
    apply Z.mod_pos_bound. reflexivity.
  - apply IH.
Qed.

Lemma littleEndian_length count x : List.length (MD5.littleEndian count x) = count.
Proof.
  revert x. induction count as [ | k IH ]; intros x; cbn [MD5.littleEndian List.length];
    [ reflexivity | now rewrite IH ].
Qed.

Lemma Sum_bytes data : List.length (MD5.Sum data) = 16%nat /\ Forall byte (MD5.Sum data).
Proof.
  unfold MD5.Sum. destruct (MD5.blocks _ _ _) as [[[a b] c] d]. split.
  - now rewrite !length_app, !littleEndian_length.
  - repeat (apply Forall_app; split); apply littleEndian_bytes.
Qed.

Lemma hex_length bytes : String.length (MD5.hex bytes) = (2 * List.length bytes)%nat.
Proof.
  induction bytes as [ | b r IH ]; cbn [MD5.hex String.length List.length]; [ reflexivity | ].
  rewrite IH. lia.
Qed.

Lemma hexDigit_digit x : 0 <= x < 16 -> isHexDigit (MD5.hexDigit x) = true.
Proof.
  intros H.
  assert (Hx : x = 0 \/ x = 1 \/ x = 2 \/ x = 3 \/ x = 4 \/ x = 5 \/ x = 6 \/ x = 7 \/
               x = 8 \/ x = 9 \/ x = 10 \/ x = 11 \/ x = 12 \/ x = 13 \/ x = 14 \/ x = 15)
    by lia.
  repeat (destruct Hx as [ -> | Hx ]; [ reflexivity | ]). now subst x.
Qed.

Lemma hex_digits bytes :
  Forall byte bytes -> forallb isHexDigit (list_ascii_of_string (MD5.hex bytes)) = true.
Proof.
  induction 1 as [ | b r Hb Hr IH ]; [ reflexivity | ].
  cbn [MD5.hex list_ascii_of_string forallb]. rewrite IH.
  cbv beta in Hb.
  rewrite !hexDigit_digit; [ reflexivity | | ].
  - change 15 with (Z.ones 4). rewrite Z.land_ones by lia. apply Z.mod_pos_bound. reflexivity.
  - rewrite Z.shiftr_div_pow2 by lia. change (2 ^ 4) with 16.
    split; [ apply Z.div_pos; lia | apply Z.div_lt_upper_bound; lia ].
Qed.

End Digest.

(** X15.  The checksum of a migration is a text of 32 bytes, each a
    hexadecimal digit in lower case, whatever the script: the sixteen bytes
    of the MD5 digest with two digits each, which is what the column
    [checksum VARCHAR(32)] of the bookkeeping table holds. *)
Theorem Checksum_is_32_hex_digits (m : Migration) :
  String.length (Checksum m) = 32 /\
  forallb isHexDigit (list_ascii_of_string (Checksum m)) = true.
Proof.
  unfold Checksum, MD5.hexSum.
  destruct (Digest.Sum_bytes (MD5.bytesOf (Script m))) as [Hlen Hbytes].
  split.
  - now rewrite Digest.hex_length, Hlen.
  - now apply Digest.hex_digits.
Qed.

(* ================================================================= *)
(** ** The blocks of a text *)

Module Blocks.

Import Strings Parse Text.





Section Facts.
Variable ParseFloat : string -> option float64.




End Facts.

(* ================================================================= *)
(** ** Line endings *)

Lemma length_string_of_list_ascii l :
  String.length (string_of_list_ascii l) = List.length l.
Proof. induction l as [ | c r IH ]; cbn; [ reflexivity | now rewrite IH ]. Qed.

Lemma dropCR_other c revLine :
  Ascii.eqb c "013" = false -> dropCR (c :: revLine) = c :: revLine.
Proof.
  destruct c as [[ | ] [ | ] [ | ] [ | ] [ | ] [ | ] [ | ] [ | ]]; cbn; congruence.
Qed.

Lemma scan_crlf s revLine :
  noCR s = true ->
  dropCR revLine = revLine ->
  Forall (fun v => (N.of_nat (String.length v) + 1 < MaxScanTokenSize)%N)
         (scan s revLine (N.of_nat (List.length revLine))) ->
  scan (crlf s) revLine (N.of_nat (List.length revLine))
  = scan s revLine (N.of_nat (List.length revLine)).
Proof.
  revert revLine. induction s as [ | c r IH ]; intros revLine Hcr Hdrop Hshort;
    [ reflexivity | ].
  cbn [noCR] in Hcr. apply andb_true_iff in Hcr. destruct Hcr as [Hc Hr].
  apply negb_true_iff in Hc.
  cbn [crlf scan] in *.
  destruct (Ascii.eqb c "010") eqn:Elf.
  - cbn [scan]. change (Ascii.eqb "013" "010") with false. cbv iota.
    inversion Hshort as [ | ? ? Hline Hrest ]; subst.
    unfold token in Hline. rewrite Hdrop, length_string_of_list_ascii, length_rev in Hline.
    apply N.ltb_lt in Hline. rewrite Hline.
    change (Ascii.eqb "010" "010") with true. cbv iota.
    unfold token. cbn [dropCR]. rewrite Hdrop. f_equal.
    apply (IH [] Hr eq_refl Hrest).
  - cbn [scan]. rewrite Elf.
    destruct (N.of_nat (List.length revLine) + 1 <? MaxScanTokenSize)%N; [ | reflexivity ].
    replace (N.of_nat (List.length revLine) + 1)%N
      with (N.of_nat (List.length (c :: revLine))) in * by (cbn [List.length]; lia).
    apply IH; [ exact Hr | now apply dropCR_other | exact Hshort ].
Qed.

(** X17.  Line endings do not matter: a text without carriage returns whose
    lines are shorter than 65535 bytes yields the same lines, and so the
    same migrations with the same scripts and checksums, when every line
    feed is turned into carriage return and line feed. *)
Theorem ParseMigrations_ignores_carriage_returns
  (ParseFloat : string -> option float64) (s : string) :
  noCR s = true ->
  shortLines s ->
  ScanLines (crlf s) = ScanLines s /\
  ParseMigrations ParseFloat (crlf s) = ParseMigrations ParseFloat s.
Proof.
  intros Hcr Hshort.
  assert (H : ScanLines (crlf s) = ScanLines s)
    by (apply (scan_crlf s [] Hcr eq_refl Hshort)).
  split; [ exact H | ]. unfold ParseMigrations. now rewrite H.
Qed.

Lemma scan_final s revLine n :
  openEnded s = true ->
  scan (s ++ String "010" EmptyString) revLine n = scan s revLine n.
Proof.
  revert revLine n. induction s as [ | c r IH ]; intros revLine n H; [ discriminate | ].
  destruct r as [ | c' r' ].
  - cbn [openEnded] in H. apply negb_true_iff in H.
    cbn [append scan]. rewrite H.
    destruct (n + 1 <? MaxScanTokenSize)%N; [ | reflexivity ].
    change (Ascii.eqb "010" "010") with true. cbv iota.
    destruct (N.eqb_spec (n + 1) 0) as [ E | _ ]; [ lia | reflexivity ].
  - change (openEnded (String c (String c' r'))) with (openEnded (String c' r')) in H.
    change ((String c (String c' r') ++ String "010" EmptyString)%string)
      with (String c (String c' r' ++ String "010" EmptyString)%string).
    cbn [scan]. rewrite !(IH _ _ H). reflexivity.
Qed.

(** X23.  A line feed at the very end does not matter: a text whose last
    line is not ended by a line feed yields the same lines, and so the same
    migrations with the same scripts and checksums, as the text with that
    line feed added.  (A further line feed adds an empty line to the last
    script.) *)
Theorem ParseMigrations_ignores_the_final_line_feed
  (ParseFloat : string -> option float64) (s : string) :
  openEnded s = true ->
  ScanLines (s ++ String "010" EmptyString) = ScanLines s /\
  ParseMigrations ParseFloat (s ++ String "010" EmptyString) = ParseMigrations ParseFloat s.
Proof.
  intros H.
  assert (E : ScanLines (s ++ String "010" EmptyString) = ScanLines s)
    by (apply scan_final, H).
  split; [ exact E | ]. unfold ParseMigrations. now rewrite E.
Qed.

End Blocks.

(* ================================================================= *)
(** ** ParseMigrationsDirFiles *)

Section DirFilesFacts.
Variable ParseFloat : string -> option float64.
Variable fsys : FS.
Variable dirName : string.

(** Over files that are read and parsed, the loop collects what each of
    them adds. *)
Lemma parseFiles_readable files migrations rest :
  Forall (readable ParseFloat fsys dirName) files ->
  parseFiles ParseFloat fsys dirName migrations (files ++ rest)
  = parseFiles ParseFloat fsys dirName
      (migrations ++ flat_map (migrationsOf ParseFloat fsys dirName) files) rest.
Proof.
  intros H. revert migrations.
  induction H as [ | file files [Hread Hparse] Hfiles IH ]; intros migrations.
  - cbn [flat_map app]. now rewrite app_nil_r.
  - cbn [app parseFiles flat_map].
    assert (Hm : migrationsOf ParseFloat fsys dirName file
                 = match ParseMigrations ParseFloat
                           (fst (ReadFile fsys (dirName ++ "/" ++ file)%string)) with
                   | Returns (Migrations migs) => migs
                   | _ => []
                   end) by reflexivity.
    rewrite Hm. clear Hm.
    destruct (ReadFile fsys (dirName ++ "/" ++ file)%string) as [readFile err].
    cbn [fst snd] in *. subst err.
    destruct (ParseMigrations ParseFloat readFile) as [[migs | payload] | p].
    + rewrite IH. now rewrite <- app_assoc.
    + apply IH.
    + now contradiction (Hparse p).
Qed.

(** X18.  [ParseMigrationsDirFiles] hands back the migrations of the files of
    the directory, file after file in the order of [ReadDir] (by file name,
    not by version), when every file is read without error and parsed
    without panic.  A file on which [ParseMigrations] gives up, handing
    back the nil slice for a version it cannot read, adds nothing: the
    migrations of that file are left out, those of the other files are
    kept, and the error returned is nil all the same. *)
Theorem ParseMigrationsDirFiles_joins_the_files (files : list string) :
  ReadDir fsys dirName = (files, None) ->
  Forall (readable ParseFloat fsys dirName) files ->
  ParseMigrationsDirFiles ParseFloat fsys dirName
  = Returns (flat_map (migrationsOf ParseFloat fsys dirName) files, None) /\
  forall file payload,
    ParseMigrations ParseFloat (fst (ReadFile fsys (dirName ++ "/" ++ file)%string))
    = Returns (NilAfterError payload) ->
    migrationsOf ParseFloat fsys dirName file = [].
Proof.
  intros Hdir Hfiles. split.
  - unfold ParseMigrationsDirFiles. rewrite Hdir.
    rewrite <- (app_nil_r files) at 1.
    now rewrite (parseFiles_readable files [] [] Hfiles).
  - intros file payload H. unfold migrationsOf. now rewrite H.
Qed.

(** X19.  One file that cannot be read makes the whole call fail: the
    error of [ReadFile] is returned with the nil slice, and the migrations
    of the files read before it are lost.  One file on which
    [ParseMigrations] panics makes the whole call panic. *)
Theorem ParseMigrationsDirFiles_fails_as_a_whole (before after : list string)
  (file : string) :
  ReadDir fsys dirName = (before ++ file :: after, None) ->
  Forall (readable ParseFloat fsys dirName) before ->
  (forall e, snd (ReadFile fsys (dirName ++ "/" ++ file)%string) = Some e ->
             ParseMigrationsDirFiles ParseFloat fsys dirName = Returns ([], Some e)) /\
  (forall p, snd (ReadFile fsys (dirName ++ "/" ++ file)%string) = None ->
             ParseMigrations ParseFloat (fst (ReadFile fsys (dirName ++ "/" ++ file)%string))
             = Panics p ->
             ParseMigrationsDirFiles ParseFloat fsys dirName = Panics p).
Proof.
  intros Hdir Hbefore.
  unfold ParseMigrationsDirFiles. rewrite Hdir.
  rewrite (parseFiles_readable before [] (file :: after) Hbefore).
  cbn [parseFiles app].
  destruct (ReadFile fsys (dirName ++ "/" ++ file)%string) as [readFile err].
  cbn [fst snd]. split.
  - now intros e ->.
  - intros p -> Hp. now rewrite Hp.
Qed.

End DirFilesFacts.

(* ================================================================= *)
(** ** The Darwin struct and its slice *)

Section DarwinFacts.
Context {D : Type} {drv : Driver D}.
Variable timeNow : nat -> Time.

(** The entries of [Info] follow the slice it is given. *)
Lemma infoOf_order records ms info :
  infoOf records ms = Returns info -> map InfoMigration info = ms.
Proof.
  revert info. induction ms as [ | m rest IH ]; intros info; cbn [infoOf].
  - now intros [= <-].
  - destruct (getStatus records m) as [status | p]; [ | discriminate ].
    destruct (infoOf records rest) as [info' | p]; [ | discriminate ].
    intros [= <-]. cbn. now rewrite (IH info' eq_refl).
Qed.



End DarwinFacts.

(* ================================================================= *)
(** ** Migrate after a failed Migrate *)

Module Resume.

Lemma filter_all {A : Type} (p : A -> bool) l :
  Forall (fun x => p x = true) l -> filter p l = l.
Proof.
  induction 1 as [ | a r Ha Hr IH ]; cbn [filter]; [ reflexivity | ].
  now rewrite Ha, IH.
Qed.

Lemma filter_implies {A : Type} (p q : A -> bool) l :
  (forall x, p x = true -> q x = true) -> filter p (filter q l) = filter p l.
Proof.
  intros H. induction l as [ | a r IH ]; cbn [filter]; [ reflexivity | ].
  destruct (q a) eqn:Eq; cbn [filter].
  - now rewrite IH.
  - destruct (p a) eqn:Ep; [ | exact IH ]. apply H in Ep. congruence.
Qed.

(** In an ascending list, the migrations above one of them are those that
    follow it. *)
Lemma filter_above pre bl rest :
  Says.strictlyAscending (pre ++ bl :: rest) ->
  filter (fun m => F64.gt (Version m) (Version bl)) (pre ++ bl :: rest) = rest.
Proof.
  unfold Says.strictlyAscending.
  induction pre as [ | a pre IH ]; intros H; inversion H as [ | ? ? Hs Hall ]; subst.
  - cbn [app filter].
    change (F64.gt (Version bl) (Version bl)) with (F64.lt (Version bl) (Version bl)).
    rewrite F64Facts.lt_irrefl. apply filter_all. exact Hall.
  - cbn [app filter]. rewrite Forall_forall in Hall.
    change (F64.gt (Version a) (Version bl)) with (F64.lt (Version bl) (Version a)).
    rewrite (F64Facts.lt_asym _ _ (Hall bl (in_elt bl pre rest))). now apply IH.
Qed.

Lemma strictly_tail pre rest :
  Says.strictlyAscending (pre ++ rest) -> Says.strictlyAscending rest.
Proof.
  unfold Says.strictlyAscending. induction pre as [ | a pre IH ]; [ trivial | ].
  intros H. inversion H; subst. now apply IH.
Qed.

Lemma strictly_before pre bl b :
  Says.strictlyAscending (pre ++ [bl]) -> In b (pre ++ [bl]) ->
  F64.lt (Version bl) (Version b) = false.
Proof.
  unfold Says.strictlyAscending.
  induction pre as [ | a pre IH ]; intros H Hb.
  - destruct Hb as [ <- | [] ]. apply F64Facts.lt_irrefl.
  - inversion H as [ | ? ? Hs Hall ]; subst. destruct Hb as [ <- | Hb ]; [ | now apply IH ].
    rewrite Forall_forall in Hall. apply F64Facts.lt_asym, Hall.
    apply in_or_app. right. now left.
Qed.

Lemma strictly_front pre rest :
  Says.strictlyAscending (pre ++ rest) -> Says.strictlyAscending pre.
Proof.
  unfold Says.strictlyAscending. induction pre as [ | a pre IH ]; [ constructor | ].
  intros H. inversion H as [ | ? ? Hs Hall ]; subst.
  constructor; [ now apply IH | ].
  rewrite Forall_forall in *. intros x Hx. apply Hall, in_or_app. now left.
Qed.

Section Facts.
Variable sorted : list Migration.
Variable rows0 records : list MigrationRecord.
Variable applied : list Migration.

Hypothesis Hnumbers : Says.numbers sorted.
Hypothesis Hdistinct : Says.distinct Version sorted.
Hypothesis Hmatched :
  Forall (fun r => exists m, In m sorted /\ F64.eq (Version m) (MigrationRecord.Version r) = true)
         rows0.
Hypothesis Hchecksums :
  Forall (fun m => forall r, FloatMap.lookup (Version m) (recordMap rows0) = Some r ->
                             MigrationRecord.Checksum r = Checksum m) sorted.
Hypothesis Hsub : forall m, In m applied -> In m sorted.
Hypothesis Hrecords : Forall2 recordOf applied records.

(** Every record, old or new, has a migration of its version. *)
Lemma matched_so_far :
  Forall (fun r => exists m, In m sorted /\ F64.eq (Version m) (MigrationRecord.Version r) = true)
         (rows0 ++ records).
Proof.
  apply Forall_app. split; [ exact Hmatched | ].
  apply Forall_forall. intros r Hr.
  destruct (Forall2_recordOf_In _ _ _ Hrecords Hr) as [m [Hm [Hv _]]].
  apply Hsub in Hm. exists m. split; [ exact Hm | ].
  rewrite Hv. apply F64Facts.eq_reflexive.
  unfold Says.numbers in Hnumbers. rewrite Forall_forall in Hnumbers. now apply Hnumbers.
Qed.

(** The record the map holds for a migration carries its checksum. *)
Lemma checksums_so_far :
  Forall (fun m => forall r, FloatMap.lookup (Version m) (recordMap (rows0 ++ records)) = Some r ->
                             MigrationRecord.Checksum r = Checksum m) sorted.
Proof.
  apply Forall_forall. intros m Hm r. rewrite recordMap_app_lookup.
  destruct (FloatMap.lookup (Version m) (recordMap records)) as [ r' | ] eqn:E.
  - intros [= <-].
    apply (FloatMapFacts.lookup_filled_Some MigrationRecord.Version) in E.
    destruct E as [Hr' Heq].
    destruct (Forall2_recordOf_In _ _ _ Hrecords Hr') as [m' [Hm' [Hv [_ Hc]]]].
    apply Hsub in Hm'. rewrite Hv in Heq.
    now rewrite Hc, (Checks.distinct_In_eq Version sorted m' m Hdistinct Hm' Hm Heq).
  - rewrite Forall_forall in Hchecksums. now apply Hchecksums.
Qed.

End Facts.

(** The plan after the migrations [pre ++ [bl]] at the front of the plan
    were recorded: what followed them. *)
Lemma plan_after sorted rows0 records pre bl rest :
  Says.numbers sorted ->
  Says.distinct Version sorted ->
  Forall (fun r => exists m, In m sorted /\ F64.eq (Version m) (MigrationRecord.Version r) = true)
         rows0 ->
  Says.strictlyAscending sorted ->
  planFor rows0 sorted = (pre ++ [bl]) ++ rest ->
  Forall2 recordOf (pre ++ [bl]) records ->
  planFor (rows0 ++ records) sorted = rest.
Proof.
  intros Hn Hd Hm Hs Hplan Hrec.
  assert (Hsub : forall m, In m (pre ++ [bl]) -> In m sorted).
  { intros m Hin. apply (planFor_In rows0). rewrite Hplan. apply in_or_app. now left. }
  assert (Hasc : Says.strictlyAscending ((pre ++ [bl]) ++ rest)).
  { rewrite <- Hplan. unfold planFor. destruct rows0; [ exact Hs | ].
    apply Plan.Sort_strictly; [ now apply Plan.numbers_filter | now apply Checks.distinct_filter ]. }
  assert (Hbl : In bl (pre ++ [bl])) by (apply in_or_app; right; now left).
  destruct (Forall2_recordOf_record _ _ bl Hrec Hbl) as [rl [Hrl [Hvl _]]].
  pose proof (matched_so_far sorted rows0 records (pre ++ [bl]) Hn Hm Hsub Hrec) as Hall.
  destruct (rows0 ++ records) as [ | f1 r1 ] eqn:E1.
  { apply app_eq_nil in E1. destruct E1 as [_ ->]. contradiction. }
  assert (Hnum : Says.numbered (f1 :: r1)) by now apply Mark.matched_numbered in Hall.
  unfold planFor. cbv zeta.
  destruct (Mark.last_is_greatest f1 r1 Hnum) as [Hin Hmax].
  set (last1 := hd f1 _) in *.
  assert (Hnbl : F64.isNaN (Version bl) = false).
  { unfold Says.numbers in Hn. rewrite Forall_forall in Hn. now apply Hn, Hsub. }
  assert (Hn1 : F64.isNaN (MigrationRecord.Version last1) = false).
  { unfold Says.numbered in Hnum. rewrite Forall_forall in Hnum. now apply Hnum. }
  assert (Hrl1 : In rl (f1 :: r1)) by (rewrite <- E1; apply in_or_app; now right).
  assert (Heq : F64.eq (MigrationRecord.Version last1) (Version bl) = true).
  { destruct (F64Facts.total _ _ Hn1 Hnbl) as [H | [H | H]]; [ | exact H | ].
    - apply Hmax in Hrl1. rewrite Hvl in Hrl1. congruence.
    - exfalso. rewrite <- E1 in Hin. apply in_app_or in Hin. destruct Hin as [Hin | Hin].
      + destruct rows0 as [ | f0 r0 ]; [ contradiction | ].
        assert (Hnum0 : Says.numbered (f0 :: r0)) by now apply Mark.matched_numbered in Hm.
        destruct (Mark.last_is_greatest f0 r0 Hnum0) as [_ Hmax0].
        unfold planFor in Hplan. cbv zeta in Hplan. set (last0 := hd f0 _) in *.
        assert (Hp0 : In bl (Sort.Sort byMigrationVersion
                               (filter (fun m => F64.gt (Version m) (MigrationRecord.Version last0))
                                       sorted)))
          by (rewrite Hplan; apply in_or_app; now left).
        apply SortFacts.Sort_In, filter_In in Hp0. destruct Hp0 as [_ Hgt]. unfold F64.gt in Hgt.
        pose proof (F64Facts.lt_trans _ _ _ Hgt H) as Hlt.
        now rewrite (Hmax0 last1 Hin) in Hlt.
      + destruct (Forall2_recordOf_In _ _ _ Hrec Hin) as [b [Hb [Hvb _]]].
        rewrite Hvb in H.
        apply strictly_front in Hasc.
        now rewrite (strictly_before pre bl b Hasc Hb) in H. }
  rewrite (filter_ext _ (fun m => F64.gt (Version m) (Version bl)))
    by (intros m; unfold F64.gt; now apply F64Facts.eq_lt_l).
  assert (Hfilter : filter (fun m => F64.gt (Version m) (Version bl)) sorted
                    = filter (fun m => F64.gt (Version m) (Version bl)) ((pre ++ [bl]) ++ rest)).
  { destruct rows0 as [ | f0 r0 ]; [ cbn [planFor] in Hplan; now rewrite Hplan | ].
    unfold planFor in Hplan. cbv zeta in Hplan. set (last0 := hd f0 _) in *.
    rewrite SortFacts.Sort_fixed in Hplan
      by (apply Plan.strictly_sorted, Plan.filter_strictly, Hs).
    rewrite <- Hplan. symmetry. apply filter_implies.
    intros m Hgt.
    assert (Hp0 : In bl (filter (fun m => F64.gt (Version m) (MigrationRecord.Version last0))
                                sorted))
      by (rewrite Hplan; apply in_or_app; now left).
    apply filter_In in Hp0. destruct Hp0 as [_ H0].
    exact (F64Facts.lt_trans _ _ _ H0 Hgt). }
  rewrite Hfilter, <- app_assoc. cbn [app].
  rewrite <- app_assoc in Hasc. cbn [app] in Hasc.
  rewrite (filter_above pre bl rest Hasc).
  apply SortFacts.Sort_fixed, Plan.strictly_sorted.
  apply (strictly_tail (pre ++ [bl])). now rewrite <- app_assoc.
Qed.

End Resume.

Section Resumption.
Variable fails : string -> option error.
Variable elapsed : string -> Duration.
Variable timeNow : nat -> Time.

Local Abbreviation drvM := (Memory.driver fails elapsed).

(** X21.  After a [Migrate] that failed at a script, the next [Migrate]
    takes up the work where it stopped.  On a driver that keeps its table
    as section 6 words it, let the script of a planned migration fail:
    [Create], [Validate] and the planning succeeded, and the planned
    migrations before it were executed and recorded.  The table then holds
    the records it held before and those of the migrations executed.  A
    second [Migrate] with the same migrations passes [Validate], plans the
    failed migration and those after it and no migration that was recorded,
    and starts by executing the failed script again.  The versions of the
    migrations are numbers. *)
Theorem Migrate_resumes_at_the_failed_migration
  (w wc wv wp w1 : world Memory.db) (migrations sorted before after : list Migration)
  (failing : Migration) (e : error) :
  Says.numbers migrations ->
  callCreate (drv := drvM) w = (None, wc) ->
  Validate (drv := drvM) wc migrations = ((None, sorted), wv) ->
  planMigration (drv := drvM) wv sorted = ((before ++ failing :: after, None), wp) ->
  applyPlanned (drv := drvM) timeNow before wp = (None, w1) ->
  fails (Script failing) = Some e ->
  let w2 := snd (Migrate (drv := drvM) timeNow w migrations) in
  let rows := Memory.rows (driver w2) in
  (exists records,
      Forall2 recordOf before records /\ rows = Memory.rows (driver w) ++ records) /\
  planFor rows sorted = failing :: after /\
  Migrate (drv := drvM) timeNow w2 sorted
  = ((Some e, sorted),
     mkWorld (driver w2)
             (calls w2 ++ [CreateCalled None; AllCalled rows None; AllCalled rows None;
                           ExecCalled (Script failing) (Some e)])
             (ticks w2)).
Proof.
  intros Hn Hc Hv Hp Hloop Hfail w2 rows.
  (* the first call *)
  assert (Hw2 : w2 = mkWorld (driver w1)
                             (calls w1 ++ [ExecCalled (Script failing) (Some e)]) (ticks w1)).
  { subst w2. unfold Migrate. rewrite Hc, Hv, Hp, applyPlanned_app, Hloop.
    cbn [applyPlanned]. unfold callExec. cbn [Exec drvM Memory.driver]. unfold Memory.exec.
    rewrite Hfail. destruct w1. reflexivity. }
  unfold callCreate in Hc. cbn [Create drvM Memory.driver Memory.create] in Hc.
  injection Hc as <-.
  set (wc := mkWorld _ _ _) in *.
  pose proof (Validate_slice (drv := drvM) wc migrations) as Hslice.
  pose proof (Validate_passed (drv := drvM) wc migrations) as Hpass.
  rewrite Hv in Hslice, Hpass. cbn [fst snd] in Hslice, Hpass.
  specialize (Hpass eq_refl). cbv zeta in Hpass. rewrite <- Hslice in Hpass.
  destruct Hpass as [H1 [H2 [_ [H4 [H5 Hwv]]]]].
  cbn [All drvM Memory.driver Memory.all driver wc fst snd Memory.rows] in H4, H5.
  set (rows0 := Memory.rows (driver w)) in *.
  assert (Hdv : driver wv = driver wc) by (rewrite Hwv; reflexivity).
  rewrite (planMigration_planFor (drv := drvM) wv sorted) in Hp by (rewrite Hdv; reflexivity).
  rewrite Hdv in Hp.
  cbn [All drvM Memory.driver Memory.all driver wc fst snd Memory.rows] in Hp.
  fold rows0 in Hp. injection Hp as Hplan Hwp.
  assert (Hdp : driver wp = driver wc).
  { rewrite <- Hwp. unfold callAll. rewrite Hdv. reflexivity. }
  destruct (applyPlanned_memory fails elapsed timeNow _ _ _ Hloop)
    as [records [Hrec [Hrows Htable]]].
  rewrite Hdp in Hrows, Htable. cbn [driver wc Memory.rows Memory.tableExists] in Hrows, Htable.
  fold rows0 in Hrows.
  assert (Erows : rows = rows0 ++ records) by (subst rows; rewrite Hw2; exact Hrows).
  assert (Hn' : Says.numbers sorted).
  { rewrite Hslice. apply (Plan.numbers_perm migrations); [ apply SortFacts.Sort_perm | exact Hn ]. }
  pose proof (Checks.isDuplicated_none _ H2) as Hd.
  pose proof (Checks.wasRemoved_matched _ _ H4) as Hm.
  pose proof (proj1 (Checks.isInvalidChecksum_passed _ _) H5) as Hcs.
  assert (Hs : Says.strictlyAscending sorted).
  { rewrite Hslice. apply Plan.Sort_strictly; [ exact Hn | ].
    apply (Checks.distinct_perm Version sorted); [ | exact Hd ].
    rewrite Hslice. symmetry. apply SortFacts.Sort_perm. }
  assert (Hsub : forall m, In m before -> In m sorted).
  { intros m Hin. apply (planFor_In rows0). rewrite Hplan. apply in_or_app. now left. }
  assert (Hplan2 : planFor rows sorted = failing :: after).
  { rewrite Erows. destruct before as [ | b0 before' ].
    - inversion Hrec; subst. now rewrite app_nil_r.
    - destruct (exists_last (l := b0 :: before')) as [pre [bl Eb]]; [ discriminate | ].
      rewrite Eb in Hplan, Hrec.
      now apply (Resume.plan_after sorted rows0 records pre bl (failing :: after)). }
  split; [ now exists records | ]. split; [ exact Hplan2 | ].
  (* the second call *)
  assert (H4' : snd (wasRemovedMigration rows sorted) = false).
  { rewrite Erows. apply Checks.wasRemoved_matched_none.
    now apply (Resume.matched_so_far sorted rows0 records before). }
  assert (H5' : snd (isInvalidChecksumMigration rows sorted) = false).
  { rewrite Erows. apply Checks.isInvalidChecksum_passed.
    now apply (Resume.checksums_so_far sorted rows0 records before). }
  assert (Hsorted : Sort.Sort byMigrationVersion sorted = sorted).
  { rewrite Hslice. apply SortFacts.Sort_idempotent, byMigrationVersion_asym. }
  assert (Hdb : Memory.mkDb true (Memory.rows (driver w2)) (Memory.executed (driver w2))
                = driver w2).
  { rewrite Hw2. cbn [driver]. destruct (driver w1) as [t r x]. cbn in Htable |- *. now subst t. }
  unfold Migrate, callCreate. cbn [Create drvM Memory.driver Memory.create].
  rewrite Hdb.
  set (wc2 := mkWorld (driver w2) _ _).
  rewrite (Validate_passes (drv := drvM) wc2 sorted);
    rewrite ?Hsorted; try assumption; try reflexivity.
  rewrite (planMigration_planFor (drv := drvM)) by reflexivity.
  cbn [callAll All drvM Memory.driver Memory.all driver calls ticks wc2 fst snd].
  fold rows. rewrite Hplan2. cbn [applyPlanned].
  unfold callExec. cbn [Exec drvM Memory.driver driver calls ticks]. unfold Memory.exec.
  rewrite Hfail. rewrite <- !app_assoc. reflexivity.
Qed.

End Resumption.

(* ================================================================= *)
(** ** What Info reports *)

Module Reports.

Lemma getStatus_three records m status :
  getStatus records m = Returns status -> status <> Error.
Proof.
  unfold getStatus. destruct records as [ | last rest ]; [ discriminate | ].
  destruct (F64.gt _ _); [ now intros [= <-] | ].
  destruct (negb _); now intros [= <-].
Qed.

Lemma infoOf_three records ms info :
  infoOf records ms = Returns info ->
  Forall (fun i => InfoStatus i <> Error /\ InfoError i = None) info.
Proof.
  revert info. induction ms as [ | m rest IH ]; intros info; cbn [infoOf].
  - intros [= <-]. constructor.
  - destruct (getStatus records m) as [status | p] eqn:Es; [ | discriminate ].
    destruct (infoOf records rest) as [info' | p]; [ | discriminate ].
    intros [= <-]. constructor; [ | now apply IH ].
    split; [ now apply getStatus_three in Es | reflexivity ].
Qed.

Lemma filter_nil {A : Type} (p : A -> bool) l :
  filter p l = [] -> Forall (fun x => p x = false) l.
Proof.
  induction l as [ | a r IH ]; cbn [filter]; [ constructor | ].
  destruct (p a) eqn:E; [ discriminate | ]. intros H. constructor; [ exact E | now apply IH ].
Qed.

End Reports.

Section InfoFacts.
Context {D : Type} {drv : Driver D}.

(** X11.  [Info] only reads: it calls the driver once, for [All], and for
    nothing else, also when it panics.  It never reports the status
    [Error], and the error of every entry is nil: the entries carry
    [Ignored], [Applied] or [Pending] only. *)
Theorem Info_only_reads_and_never_reports_Error (w : world D) (migrations : list Migration) :
  calls (snd (Info w migrations))
  = calls w ++ [AllCalled (fst (fst (All (driver w)))) (snd (fst (All (driver w))))] /\
  driver (snd (Info w migrations)) = snd (All (driver w)) /\
  forall info err,
    fst (Info w migrations) = Returns (info, err) ->
    Forall (fun i => InfoStatus i <> Error /\ InfoError i = None) info.
Proof.
  unfold Info, callAll.
  destruct (All (driver w)) as [[records [e | ]] d]; cbn [fst snd calls driver].
  - repeat split. intros info err [= <- _]. constructor.
  - destruct (infoOf _ migrations) as [info' | p] eqn:E; cbn [fst snd calls driver];
      repeat split; [ | discriminate ].
    intros info err [= <- _]. now apply Reports.infoOf_three in E.
Qed.

End InfoFacts.

Section AfterMigrate.
Variable fails : string -> option error.
Variable elapsed : string -> Duration.
Variable timeNow : nat -> Time.

Local Abbreviation drvM := (Memory.driver fails elapsed).

(** X10.  After a successful [Migrate] nothing is pending.  On a driver that
    keeps its table as section 6 words it, and for versions that are
    numbers: when [Migrate] has returned nil, [Info] with the same
    migrations returns an entry for each of them, in the order [Migrate]
    left the slice in, and none of the entries is [Pending]. *)
Theorem nothing_is_Pending_after_Migrate (w w1 : world Memory.db)
  (migrations sorted : list Migration) :
  Says.numbers migrations ->
  Migrate (drv := drvM) timeNow w migrations = ((None, sorted), w1) ->
  exists info,
    fst (Info (drv := drvM) w1 sorted) = Returns (info, None) /\
    map InfoMigration info = sorted /\
    Forall (fun i => isPending i = false) info.
Proof.
  intros Hn H.
  apply Migrate_memory_done in H. cbv zeta in H.
  destruct H as [Hs [H1 [H2 [H4 [H5 [records [Hrec [Hrows Htable]]]]]]]].
  assert (Hn' : Says.numbers sorted).
  { rewrite Hs. apply (Plan.numbers_perm migrations); [ apply SortFacts.Sort_perm | exact Hn ]. }
  pose proof (Checks.isDuplicated_none _ H2) as Hd.
  pose proof (Checks.wasRemoved_matched _ _ H4) as Hm.
  pose proof (proj1 (Checks.isInvalidChecksum_passed _ _) H5) as Hc.
  pose proof (Again.nothing_planned_after sorted (Memory.rows (driver w)) records
                Hn' Hm Hc Hrec) as Hplan.
  rewrite <- Hrows in Hplan.
  unfold Info, callAll. cbn [All drvM Memory.driver Memory.all fst snd].
  destruct (Memory.rows (driver w1)) as [ | first rest ] eqn:Erows.
  - cbn [planFor] in Hplan. rewrite Hplan. exists []. repeat split; constructor.
  - unfold planFor in Hplan. cbv zeta in Hplan.
    set (less := Sort.Reverse byMigrationRecordVersion) in *.
    pose proof (SortFacts.Sort_perm less (first :: rest)) as Hp.
    destruct (Sort.Sort less (first :: rest)) as [ | top others ] eqn:E.
    { apply Permutation_sym, Permutation_nil in Hp. discriminate. }
    cbn [hd] in Hplan.
    destruct (Above.infoOf_pending top others sorted) as [info [Einfo Hinfo]].
    exists info. rewrite Einfo. split; [ reflexivity | ].
    split.
    + now apply infoOf_order in Einfo.
    + apply Reports.filter_nil.
      assert (Hnone : filter (fun m => F64.gt (Version m) (MigrationRecord.Version top)) sorted
                      = []).
      { pose proof (SortFacts.Sort_perm byMigrationVersion
                      (filter (fun m => F64.gt (Version m) (MigrationRecord.Version top))
                              sorted)) as Hq.
        rewrite Hplan in Hq. now apply Permutation_sym, Permutation_nil in Hq. }
      rewrite Hnone in Hinfo. now apply map_eq_nil in Hinfo.
Qed.

End AfterMigrate.

(* ================================================================= *)
(** ** The names of the statuses *)

(** X22.  [String] names the four statuses by four different texts, none of
    them [INVALID], and answers [INVALID] for every value of the type that
    is none of the four constants. *)
Theorem Status_String_names :
  (forall s, Status_String_of (Status_value s) = Status_String s) /\
  (forall s t, Status_String s = Status_String t -> s = t) /\
  (forall s, Status_String s <> "INVALID"%string) /\
  (forall n, (forall s, Status_value s <> n) -> Status_String_of n = "INVALID"%string).
Proof.
  split; [ | split; [ | split ] ].
  - intros []; reflexivity.
  - intros [] []; cbn; congruence.
  - intros []; discriminate.
  - intros n H. unfold Status_String_of.
    pose proof (H Ignored) as H0. pose proof (H Applied) as H1.
    pose proof (H Pending) as H2. pose proof (H Error) as H3.
    destruct (Z.eqb_spec n (Status_value Ignored)); [ congruence | ].
    destruct (Z.eqb_spec n (Status_value Applied)); [ congruence | ].
    destruct (Z.eqb_spec n (Status_value Pending)); [ congruence | ].
    destruct (Z.eqb_spec n (Status_value Error)); [ congruence | ].
    reflexivity.
Qed.

(* ================================================================= *)
(** ** The texts of the errors *)

(** X4.  The text of an error tells its type: whatever the versions and
    however [%f] writes them, two of the four errors of [Validate] with the
    same text are of the same type. *)
Theorem error_texts_tell_the_type (formatFloat : float64 -> string) (e e' : error) :
  validationError e -> validationError e' ->
  ErrorOf formatFloat e = ErrorOf formatFloat e' ->
  sameCheck (Some e) (Some e').
Proof.
  destruct e, e'; cbn [validationError sameCheck ErrorOf append];
    intros He He' H; try exact I; try contradiction; discriminate H.
Qed.

(* ================================================================= *)
(** ** The theorems at work *)

Module Run.

Import Example.

(** C1 at work: [Info] on the empty table panics for one migration. *)
Lemma Info_panics_on_the_empty_table :
  fst (All (Driver := drv) (driver (start Memory.empty))) = ([], None) /\
  [users] <> [] /\
  fst (Info (drv := drv) (start Memory.empty) [users]) = Panics (IndexOutOfRange 0 0).
Proof.
  assert (H1 : fst (All (Driver := drv) (driver (start Memory.empty))) = ([], None))
    by reflexivity.
  assert (H2 : [users] <> []) by discriminate.
  exact (conj H1 (conj H2
    (Info_panics_on_empty_history (drv := drv) (start Memory.empty) [users] H1 H2))).
Defined.


(** C2 refuted as stated, a second way: with a record and two migrations of
    one version the plan is not strictly ascending. *)
Lemma plan_keeps_migrations_of_one_version :
  ~ Says.strictlyAscending
      (fst (fst (planMigration (drv := drv) (start db1) [orders; orders]))).
Proof.
  change (fst (fst (planMigration (drv := drv) (start db1) [orders; orders])))
    with (Sort.Sort byMigrationVersion [orders; orders]).
  intros H. vm_compute in H. inversion H as [ | ? ? _ Hall ]; subst.
  inversion Hall as [ | ? ? Hlt _ ]; subst. vm_compute in Hlt. discriminate.
Qed.


(** C4 at work: on the empty table, with the migrations given out of
    order, the script of the third planned migration fails. *)
Lemma Migrate_stops_at_the_broken_migration :
  let w := start Memory.empty in
  let given := [orders; broken; users; emails] in
  let wc := snd (callCreate (drv := drv) w) in
  let wv := snd (Validate (drv := drv) wc given) in
  let wp := snd (planMigration (drv := drv) wv [users; emails; broken; orders]) in
  let w1 := snd (applyPlanned (drv := drv) clock [users; emails] wp) in
  fst (fst (Migrate (drv := drv) clock w given)) = Some (OtherError "script failed") /\
  Memory.rows (driver (snd (Migrate (drv := drv) clock w given)))
  = [MigrationRecord.mk 1%float "create users" (Checksum users) 0%Z 5%Z;
     MigrationRecord.mk 2%float "add email" (Checksum emails) 1%Z 5%Z] /\
  Memory.executed (driver (snd (Migrate (drv := drv) clock w given)))
  = [Script users; Script emails] /\
  exists records,
    Forall2 recordOf [users; emails] records /\
    calls (snd (Migrate (drv := drv) clock w given))
    = calls wp ++ appliedCalls [users; emails] records ++ [ExecCalled "FAIL" (Some (OtherError "script failed"))].
Proof.
  intros w given wc wv wp w1.
  assert (H1 : callCreate (drv := drv) w = (None, wc)) by (vm_compute; reflexivity).
  assert (H2 : Validate (drv := drv) wc given = ((None, [users; emails; broken; orders]), wv))
    by (vm_compute; reflexivity).
  assert (H3 : planMigration (drv := drv) wv [users; emails; broken; orders]
               = (([users; emails] ++ broken :: [orders], None), wp))
    by (vm_compute; reflexivity).
  assert (H4 : applyPlanned (drv := drv) clock [users; emails] wp = (None, w1))
    by (vm_compute; reflexivity).
  assert (H5 : snd (fst (Exec (Driver := drv) (Script broken) (driver w1)))
               = Some (OtherError "script failed"))
    by (vm_compute; reflexivity).
  destruct (Migrate_stops_at_the_failing_script (drv := drv) clock
              w wc wv wp w1 given [users; emails; broken; orders]
              [users; emails] [orders] broken (OtherError "script failed")
              H1 H2 H3 H4 H5) as [Herr [_ Hcalls]].
  split; [ exact Herr | ].
  split; [ vm_compute; reflexivity | ].
  split; [ vm_compute; reflexivity | exact Hcalls ].
Defined.

(** C5 at work: the record of [users] is in the table and [users] is no
    longer among the migrations. *)
Lemma Validate_reports_the_removed_migration :
  Says.distinct MigrationRecord.Version (fst (fst (All (Driver := drv) (driver (start db1))))) /\
  fst (fst (Validate (drv := drv) (start db1) [orders; emails]))
  = Some (RemovedMigrationError 1%float) /\
  exists fetched,
    Says.Validate [orders; emails] (fst (All (Driver := drv) (driver (start db1)))) fetched
                  (fst (fst (Validate (drv := drv) (start db1) [orders; emails]))) /\
    snd (Validate (drv := drv) (start db1) [orders; emails])
    = (if fetched then snd (callAll (drv := drv) (start db1)) else start db1).
Proof.
  assert (H : Says.distinct MigrationRecord.Version
                (fst (fst (All (Driver := drv) (driver (start db1))))))
    by (simpl; repeat constructor).
  split; [ exact H | ].
  split; [ vm_compute; reflexivity | ].
  exact (Validate_checks_in_order (drv := drv) (start db1) [orders; emails] H).
Defined.

(** C6 at work: [users] was applied, and its script is changed. *)
Lemma Validate_reports_the_changed_script :
  fst (fst (Validate (drv := drv) (start db1) [emails; users])) = None /\
  fst (fst (Validate (drv := drv) (start db1)
              (map (rescript 1%float "CREATE TABLE users (id BIGINT);") [emails; users])))
  = Some (InvalidChecksumError 1%float).
Proof.
  assert (H : fst (fst (Validate (drv := drv) (start db1) [emails; users])) = None)
    by (vm_compute; reflexivity).
  split; [ exact H | ].
  refine (proj1 (changed_script_is_detected (drv := drv) clock (start db1) [emails; users]
                   users "CREATE TABLE users (id BIGINT);" H _ _ _)).
  - right. now left.
  - exists usersRecord. split; [ now left | reflexivity ].
  - intros r [ <- | [] ] _. vm_compute. discriminate.
Defined.


(** A version that is not a number: [Validate] lets a NaN pass (it is not
    below zero and equals no other version), the empty table takes its
    record, and from then on the record matches no migration. *)
Example Migrate_again_with_a_NaN_version :
  let odd := mkMigration nan "" "SELECT 1;" in
  let w1 := snd (Migrate (drv := drv) clock (start Memory.empty) [odd]) in
  fst (fst (Migrate (drv := drv) clock (start Memory.empty) [odd])) = None /\
  fst (fst (Migrate (drv := drv) clock w1 [odd])) = Some (RemovedMigrationError nan).
Proof. split; vm_compute; reflexivity. Qed.

(** The example of section 8: two blocks against an empty database, then
    [Info] with a migration added later. *)
Example end_to_end :
  let nl := String "010" "" in
  let text := ("-- Version: 1.0" ++ nl ++ "-- Description: create users" ++ nl
               ++ "CREATE TABLE users;" ++ nl ++ "-- Version: 1.5" ++ nl
               ++ "ALTER TABLE users;")%string in
  let first := mkMigration 1%float "create users" ("CREATE TABLE users;" ++ nl) in
  let second := mkMigration 1.5%float "" ("ALTER TABLE users;" ++ nl) in
  let later := mkMigration 2%float "" "DROP TABLE users;" in
  let w1 := snd (Migrate (drv := drv) clock (start Memory.empty) [first; second]) in
  ParseMigrations Strconv.plainDecimal text = Returns (Migrations [first; second]) /\
  fst (fst (Migrate (drv := drv) clock (start Memory.empty) [first; second])) = None /\
  Memory.executed (driver w1) = [Script first; Script second] /\
  map MigrationRecord.Version (Memory.rows (driver w1)) = [1%float; 1.5%float] /\
  fst (Info (drv := drv) w1 [first; second; later])
  = Returns ([mkMigrationInfo Applied None first; mkMigrationInfo Applied None second;
              mkMigrationInfo Pending None later], None).
Proof. repeat split; vm_compute; reflexivity. Qed.

(** C3 at work, with the decimals [strconv.ParseFloat] reads: the form
    without space gives version 0 for the payload [1.0], and drops the
    leading digit of [12.5]. *)
Example version_markers_parsed :
  ParseMigrations Strconv.plainDecimal "-- Version: 1.0"
  = Returns (Migrations [mkMigration 1%float "" ""]) /\
  ParseMigrations Strconv.plainDecimal "--version: 1.0"
  = Returns (Migrations [mkMigration 1%float "" ""]) /\
  ParseMigrations Strconv.plainDecimal "-- version:1.0"
  = Returns (Migrations [mkMigration 1%float "" ""]) /\
  ParseMigrations Strconv.plainDecimal "--version:1.0"
  = Returns (Migrations [mkMigration 0%float "" ""]) /\
  ParseMigrations Strconv.plainDecimal "--version:12.5"
  = Returns (Migrations [mkMigration 2.5%float "" ""]) /\
  ParseMigrations Strconv.plainDecimal "--version:7" = Returns (NilAfterError "").
Proof. repeat split; vm_compute; reflexivity. Qed.


(** X1 at work: the plan inside [Migrate]; the migrations are given in
    descending order on the empty table. *)
Lemma plan_after_Validate_on_the_empty_table :
  Says.numbers [emails; users] /\
  fst (fst (Validate (drv := drv) (start Memory.empty) [emails; users])) = None /\
  fst (fst (planMigration (drv := drv) (start Memory.empty)
              (snd (fst (Validate (drv := drv) (start Memory.empty) [emails; users])))))
  = [users; emails] /\
  Says.strictlyAscending
    (fst (fst (planMigration (drv := drv) (start Memory.empty)
                 (snd (fst (Validate (drv := drv) (start Memory.empty) [emails; users])))))).
Proof.
  assert (Hn : Says.numbers [emails; users]) by (repeat constructor).
  assert (H : fst (fst (Validate (drv := drv) (start Memory.empty) [emails; users])) = None)
    by (vm_compute; reflexivity).
  split; [ exact Hn | ]. split; [ exact H | ]. split; [ vm_compute; reflexivity | ].
  exact (plan_inside_Migrate_ascends (drv := drv) (start Memory.empty) (start Memory.empty)
           [emails; users] Hn H).
Defined.

(** X2 at work: the statuses of [Info]; one record, and migrations above it,
    at it and below it. *)
Lemma Info_on_one_record :
  let half := mkMigration 0.5%float "" "SELECT 1;" in
  fst (Info (drv := drv) (start db1) [orders; users; half])
  = Returns ([mkMigrationInfo Pending None orders; mkMigrationInfo Applied None users;
              mkMigrationInfo Ignored None half], None) /\
  exists info,
    fst (Info (drv := drv) (start db1) [orders; users; half]) = Returns (info, None) /\
    map InfoMigration info = [orders; users; half] /\
    Forall (fun i => statusSaid [usersRecord] (InfoMigration i) (InfoStatus i) /\
                     InfoError i = None) info.
Proof.
  intros half. split; [ vm_compute; reflexivity | ].
  apply (Info_reports_the_statuses (drv := drv) (start db1) [orders; users; half]
           usersRecord []).
  - reflexivity.
  - repeat constructor.
Defined.

(** X3 at work: [users] was applied and is left out. *)
Lemma Validate_reports_the_migration_left_out :
  fst (fst (Validate (drv := drv) (start db1) [emails; users])) = None /\
  exists v,
    fst (fst (Validate (drv := drv) (start db1)
                (filter (fun x => negb (F64.eq (Version x) (Version users))) [emails; users])))
    = Some (RemovedMigrationError v) /\
    F64.eq v (Version users) = true.
Proof.
  assert (H : fst (fst (Validate (drv := drv) (start db1) [emails; users])) = None)
    by (vm_compute; reflexivity).
  split; [ exact H | ].
  apply (left_out_migration_is_detected (drv := drv) (start db1) [emails; users] users H).
  - right. now left.
  - exists usersRecord. split; [ now left | reflexivity ].
Defined.

(** A successful [Migrate] at work: two migrations, given in descending
    order, on the empty table. *)
Lemma Migrate_runs_both_migrations_on_the_empty_table :
  let w := start Memory.empty in
  let w1 := snd (Migrate (drv := drv) clock w [emails; users]) in
  Migrate (drv := drv) clock w [emails; users] = ((None, [users; emails]), w1) /\
  Memory.executed (driver w1) = [Script users; Script emails] /\
  exists history history' records,
    [users; emails] = Sort.Sort byMigrationVersion [emails; users] /\
    Forall2 recordOf (planFor history' [users; emails]) records /\
    calls w1 = calls w
               ++ [CreateCalled None; AllCalled history None; AllCalled history' None]
               ++ appliedCalls (planFor history' [users; emails]) records.
Proof.
  intros w w1.
  assert (H : Migrate (drv := drv) clock w [emails; users] = ((None, [users; emails]), w1))
    by (vm_compute; reflexivity).
  split; [ exact H | ]. split; [ vm_compute; reflexivity | ].
  exact (Migrate_success_runs_the_plan (drv := drv) clock w w1 [emails; users] [users; emails] H).
Defined.

(** A failing [Insert] at work: the table takes no record, and the script
    of the first migration has run when [Migrate] returns the error. *)
Lemma Migrate_stops_at_the_refused_record :
  let locked := readOnly fails elapsed in
  let w := start Memory.empty in
  let wc := snd (callCreate (drv := locked) w) in
  let wv := snd (Validate (drv := locked) wc [emails; users]) in
  let wp := snd (planMigration (drv := locked) wv [users; emails]) in
  let d1 := snd (Exec (Driver := locked) (Script users) (driver wp)) in
  let result := Migrate (drv := locked) clock w [emails; users] in
  fst (fst result) = Some (OtherError "table is read-only") /\
  Memory.executed (driver (snd result)) = [Script users] /\
  Memory.rows (driver (snd result)) = [] /\
  exists records,
    Forall2 recordOf [] records /\
    calls (snd result)
    = calls wp ++ appliedCalls [] records
      ++ [ExecCalled (Script users) None;
          InsertCalled (recordAt clock (ticks wp) 5%Z users)
                       (Some (OtherError "table is read-only"))].
Proof.
  intros locked w wc wv wp d1 result.
  assert (H1 : callCreate (drv := locked) w = (None, wc)) by (vm_compute; reflexivity).
  assert (H2 : Validate (drv := locked) wc [emails; users] = ((None, [users; emails]), wv))
    by (vm_compute; reflexivity).
  assert (H3 : planMigration (drv := locked) wv [users; emails]
               = (([] ++ users :: [emails], None), wp))
    by (vm_compute; reflexivity).
  assert (H4 : applyPlanned (drv := locked) clock [] wp = (None, wp)) by reflexivity.
  assert (H5 : Exec (Driver := locked) (Script users) (driver wp) = ((5%Z, None), d1))
    by (vm_compute; reflexivity).
  assert (H6 : fst (Insert (Driver := locked) (recordAt clock (ticks wp) 5%Z users) d1)
               = Some (OtherError "table is read-only"))
    by reflexivity.
  destruct (Migrate_stops_at_the_failing_insert (drv := locked) clock
              w wc wv wp wp [emails; users] [users; emails] [] [emails] users 5%Z d1
              (OtherError "table is read-only") H1 H2 H3 H4 H5 H6) as [Herr [_ Hcalls]].
  split; [ exact Herr | ].
  split; [ vm_compute; reflexivity | ].
  split; [ vm_compute; reflexivity | exact Hcalls ].
Defined.

(** The plan at work: one record, and migrations above it, at it and below
    it. *)
Lemma plan_above_one_record :
  let half := mkMigration 0.5%float "" "SELECT 1;" in
  fst (All (Driver := drv) (driver (start db1))) = ([usersRecord], None) /\
  Says.numbered [usersRecord] /\
  filter (aboveAll [usersRecord]) [orders; half; users; emails] = [orders; emails] /\
  Permutation (fst (fst (planMigration (drv := drv) (start db1) [orders; half; users; emails])))
              (filter (aboveAll [usersRecord]) [orders; half; users; emails]).
Proof.
  intros half.
  assert (H1 : fst (All (Driver := drv) (driver (start db1))) = ([usersRecord], None))
    by reflexivity.
  assert (H2 : Says.numbered [usersRecord]) by (repeat constructor).
  split; [ exact H1 | ]. split; [ exact H2 | ]. split; [ vm_compute; reflexivity | ].
  exact (plan_is_what_lies_above_the_history (drv := drv) (start db1)
           [orders; half; users; emails] usersRecord [] H1 H2).
Defined.

(** [Info] and the plan at work, on the same table. *)
Lemma Pending_and_planned_on_one_record :
  let half := mkMigration 0.5%float "" "SELECT 1;" in
  fst (All (Driver := drv) (driver (start db1))) = ([usersRecord], None) /\
  fst (fst (planMigration (drv := drv) (start db1) [orders; half; users; emails]))
  = [emails; orders] /\
  exists info,
    fst (Info (drv := drv) (start db1) [orders; half; users; emails]) = Returns (info, None) /\
    Permutation (map InfoMigration (filter isPending info))
                (fst (fst (planMigration (drv := drv) (start db1)
                             [orders; half; users; emails]))).
Proof.
  intros half.
  assert (H1 : fst (All (Driver := drv) (driver (start db1))) = ([usersRecord], None))
    by reflexivity.
  split; [ exact H1 | ]. split; [ vm_compute; reflexivity | ].
  exact (Info_reports_Pending_what_is_planned (drv := drv) (start db1)
           [orders; half; users; emails] usersRecord [] H1).
Defined.

(** The order of the migrations at work: a removed migration is reported in
    either order. *)
Lemma Validate_in_two_orders :
  Permutation [orders; emails] [emails; orders] /\
  fst (fst (Validate (drv := drv) (start db1) [orders; emails]))
  = Some (RemovedMigrationError 1%float) /\
  sameCheck (fst (fst (Validate (drv := drv) (start db1) [orders; emails])))
            (fst (fst (Validate (drv := drv) (start db1) [emails; orders]))) /\
  snd (Validate (drv := drv) (start db1) [orders; emails])
  = snd (Validate (drv := drv) (start db1) [emails; orders]).
Proof.
  assert (H : Permutation [orders; emails] [emails; orders]) by apply perm_swap.
  split; [ exact H | ]. split; [ vm_compute; reflexivity | ].
  exact (Validate_does_not_depend_on_the_order (drv := drv) (start db1) _ _ H).
Defined.

(** A version that is not a number at work: [Validate] accepts it beside
    [users]. *)
Lemma Validate_accepts_NaN_beside_users :
  let odd := mkMigration nan "" "SELECT 1;" in
  fst (fst (Validate (drv := drv) (start db1) [users])) = None /\
  F64.isNaN (Version odd) = true /\
  fst (fst (Validate (drv := drv) (start db1) [odd; users])) = None.
Proof.
  intros odd.
  assert (H1 : fst (fst (Validate (drv := drv) (start db1) [users])) = None)
    by (vm_compute; reflexivity).
  assert (H2 : F64.isNaN (Version odd) = true) by reflexivity.
  exact (conj H1 (conj H2
    (Validate_accepts_a_NaN_version (drv := drv) (start db1) [users] odd H1 H2))).
Defined.

(** A record that is not a number at work: the migration it was made of
    does not match it. *)
Lemma Validate_fails_on_a_NaN_record :
  let odd := mkMigration nan "" "SELECT 1;" in
  let r := MigrationRecord.mk nan "" (Checksum odd) 0%Z 5%Z in
  let w := start (Memory.mkDb true [r] [Script odd]) in
  In r (fst (fst (All (Driver := drv) (driver w)))) /\
  F64.isNaN (MigrationRecord.Version r) = true /\
  fst (fst (Validate (drv := drv) w [odd])) <> None.
Proof.
  intros odd r w.
  assert (H1 : In r (fst (fst (All (Driver := drv) (driver w))))) by now left.
  assert (H2 : F64.isNaN (MigrationRecord.Version r) = true) by reflexivity.
  exact (conj H1 (conj H2 (NaN_record_fails_every_Validate (drv := drv) w [odd] r H1 H2))).
Defined.


(** Line endings at work. *)
Lemma ParseMigrations_on_a_text_with_carriage_returns :
  let nl := String "010" "" in
  let cr := String "013" "" in
  let text := ("-- Version: 1" ++ nl ++ "A;" ++ nl ++ "B;")%string in
  Text.crlf text = ("-- Version: 1" ++ cr ++ nl ++ "A;" ++ cr ++ nl ++ "B;")%string /\
  Strings.ScanLines (Text.crlf text) = Strings.ScanLines text /\
  ParseMigrations Strconv.plainDecimal (Text.crlf text)
  = ParseMigrations Strconv.plainDecimal text.
Proof.
  intros nl cr text. split; [ reflexivity | ].
  apply (Blocks.ParseMigrations_ignores_carriage_returns Strconv.plainDecimal text).
  - reflexivity.
  - repeat constructor.
Defined.

(** A directory at work: the second file has a version that cannot be
    read, and only the migrations of the other two are handed back. *)
Lemma ParseMigrationsDirFiles_on_three_files :
  let nl := String "010" "" in
  let fsys := directory "migrations"
                [("001.sql", "-- Version: 2" ++ nl ++ "B;");
                 ("002.sql", "-- Version: two" ++ nl ++ "C;");
                 ("003.sql", "-- Version: 1" ++ nl ++ "A;")]%string in
  ParseMigrationsDirFiles Strconv.plainDecimal fsys "migrations"
  = Returns ([mkMigration 2%float "" ("B;" ++ nl); mkMigration 1%float "" ("A;" ++ nl)], None).
Proof.
  intros nl fsys.
  refine (eq_trans
            (proj1 (ParseMigrationsDirFiles_joins_the_files Strconv.plainDecimal fsys "migrations"
                      ["001.sql"; "002.sql"; "003.sql"]%string eq_refl _)) _).
  - repeat constructor; intros p; vm_compute; discriminate.
  - vm_compute. reflexivity.
Defined.

(** A directory with an entry that cannot be read as a file. *)
Lemma ParseMigrationsDirFiles_on_a_subdirectory :
  let nl := String "010" "" in
  let fsys := mkFS (fun _ => (["001.sql"%string; "old"%string; "002.sql"%string], None))
                   (fun path => if String.eqb path "migrations/old"
                                then ("", Some (OtherError "is a directory"))
                                else ("-- Version: 1" ++ nl ++ "A;", None))%string in
  ParseMigrationsDirFiles Strconv.plainDecimal fsys "migrations"
  = Returns ([], Some (OtherError "is a directory")).
Proof.
  intros nl fsys.
  apply (proj1 (ParseMigrationsDirFiles_fails_as_a_whole Strconv.plainDecimal fsys "migrations"
                  ["001.sql"%string] ["002.sql"%string] "old" eq_refl
                  ltac:(repeat constructor; intros p; vm_compute; discriminate))).
  reflexivity.
Defined.


(** Resumption at work: after the failure at [broken], the next [Migrate]
    plans [broken] and [orders], and starts with the script of [broken]. *)
Lemma Migrate_again_after_the_broken_migration :
  let w := start Memory.empty in
  let given := [orders; broken; users; emails] in
  let sorted := [users; emails; broken; orders] in
  let w2 := snd (Migrate (drv := drv) clock w given) in
  let rows := Memory.rows (driver w2) in
  map MigrationRecord.Version rows = [1%float; 2%float] /\
  planFor rows sorted = [broken; orders] /\
  Migrate (drv := drv) clock w2 sorted
  = ((Some (OtherError "script failed"), sorted),
     mkWorld (driver w2)
             (calls w2 ++ [CreateCalled None; AllCalled rows None; AllCalled rows None;
                           ExecCalled "FAIL" (Some (OtherError "script failed"))])
             (ticks w2)).
Proof.
  intros w given sorted w2 rows.
  pose (wc := snd (callCreate (drv := drv) w)).
  pose (wv := snd (Validate (drv := drv) wc given)).
  pose (wp := snd (planMigration (drv := drv) wv sorted)).
  pose (w1 := snd (applyPlanned (drv := drv) clock [users; emails] wp)).
  assert (H0 : Says.numbers given) by (repeat constructor).
  assert (H1 : callCreate (drv := drv) w = (None, wc)) by (vm_compute; reflexivity).
  assert (H2 : Validate (drv := drv) wc given = ((None, sorted), wv))
    by (vm_compute; reflexivity).
  assert (H3 : planMigration (drv := drv) wv sorted
               = (([users; emails] ++ broken :: [orders], None), wp))
    by (vm_compute; reflexivity).
  assert (H4 : applyPlanned (drv := drv) clock [users; emails] wp = (None, w1))
    by (vm_compute; reflexivity).
  assert (H5 : fails (Script broken) = Some (OtherError "script failed")) by reflexivity.
  destruct (Migrate_resumes_at_the_failed_migration fails elapsed clock
              w wc wv wp w1 given sorted [users; emails] [orders] broken
              (OtherError "script failed") H0 H1 H2 H3 H4 H5) as [_ [Hplan Hagain]].
  split; [ vm_compute; reflexivity | ].
  split; [ exact Hplan | exact Hagain ].
Defined.

(** [Info] after a successful [Migrate], at work. *)
Lemma Info_after_Migrate_on_the_empty_table :
  let w1 := snd (Migrate (drv := drv) clock (start Memory.empty) [emails; users]) in
  Says.numbers [emails; users] /\
  Migrate (drv := drv) clock (start Memory.empty) [emails; users] = ((None, [users; emails]), w1) /\
  exists info,
    fst (Info (drv := drv) w1 [users; emails]) = Returns (info, None) /\
    map InfoMigration info = [users; emails] /\
    Forall (fun i => isPending i = false) info.
Proof.
  intros w1.
  assert (Hn : Says.numbers [emails; users]) by (repeat constructor).
  assert (H : Migrate (drv := drv) clock (start Memory.empty) [emails; users]
              = ((None, [users; emails]), w1)) by (vm_compute; reflexivity).
  exact (conj Hn (conj H
    (nothing_is_Pending_after_Migrate fails elapsed clock (start Memory.empty) w1
       [emails; users] [users; emails] Hn H))).
Defined.

(** The texts of two errors at work, with a version written as a fixed
    text. *)
Lemma texts_of_a_removed_migration :
  let formatFloat := fun _ : float64 => "1.000000"%string in
  ErrorOf formatFloat (RemovedMigrationError 1%float) = "Migration 1.000000 was removed"%string /\
  sameCheck (Some (RemovedMigrationError 1%float)) (Some (RemovedMigrationError 1%float)).
Proof.
  intros formatFloat. split; [ reflexivity | ].
  exact (error_texts_tell_the_type formatFloat (RemovedMigrationError 1%float)
           (RemovedMigrationError 1%float) I I eq_refl).
Defined.

(** The final line feed at work; a second one changes the script. *)
Lemma ParseMigrations_with_and_without_the_final_line_feed :
  let nl := String "010" "" in
  let text := ("-- Version: 1" ++ nl ++ "A;")%string in
  ParseMigrations Strconv.plainDecimal (text ++ nl)
  = Returns (Migrations [mkMigration 1%float "" ("A;" ++ nl)]) /\
  ParseMigrations Strconv.plainDecimal (text ++ nl ++ nl)
  = Returns (Migrations [mkMigration 1%float "" ("A;" ++ nl ++ nl)]) /\
  ParseMigrations Strconv.plainDecimal (text ++ nl) = ParseMigrations Strconv.plainDecimal text.
Proof.
  intros nl text.
  split; [ vm_compute; reflexivity | ]. split; [ vm_compute; reflexivity | ].
  exact (proj2 (Blocks.ParseMigrations_ignores_the_final_line_feed Strconv.plainDecimal text
                  eq_refl)).
Defined.

End Run.
